(** * aiosaber: the stream operators of [aiosaber/operators.py]

    A shallow embedding of the operator catalogue (Mix, Concat, Collect,
    Sample, Filter, Unique, Distinct, GetItem, Branch, Subscribe, Map,
    Reduce with Sum, Count, Min and Max, Flatten, Group, Take, Last, Until)
    over a fragment of Python values, followed by the properties of the
    operators.

    Layout: the value model and the Python builtins the operators call,
    then one module per operator class with its constructor and its
    [handle] / [handle_stream] method, then the lemmas and theorems. *)

From Stdlib Require Import ZArith String Ascii Bool Lia.
From stdpp Require Import base list.

Local Open Scope Z_scope.
Local Open Scope list_scope.

(** ** Python values *)

(** The fragment of Python values the operators are exercised on.  Mutable
    containers and bare [object()] instances carry the identity of the
    object ([id(x)]); immutable values are compared by value only.
    Floats, bools and user classes are outside the fragment. *)
#[local] Unset Elimination Schemes.
Inductive pyval : Type :=
| PNone
| PInt (z : Z)
| PStr (s : string)
| PTuple (items : list pyval)
| PList (id : nat) (items : list pyval)
| PDict (id : nat) (entries : list (pyval * pyval))
| PObj (id : nat).
#[local] Set Elimination Schemes.

(** What travels on an edge: a real item or the END marker. *)
Inductive msg : Type :=
| Item (data : pyval)
| END.

(** Exception classes that occur in the operators. *)
Inductive exn : Type :=
| TypeError
| KeyError
| IndexError
| ValueError
| RuntimeError
| AssertionError.

Inductive pyres (A : Type) : Type :=
| Ok (a : A)
| Raise (e : exn).
Arguments Ok {A} a.
Arguments Raise {A} e.

(** ** The interpreter monad

    A computation may raise, and may create objects; the state is the
    number of object identities handed out so far. *)
Definition heap : Type := nat.
Definition Py (A : Type) : Type := heap -> pyres (A * heap).

Definition ret {A} (a : A) : Py A := fun h => Ok (a, h).
Definition raise {A} (e : exn) : Py A := fun _ => Raise e.
Definition bind {A B} (k : A -> Py B) (c : Py A) : Py B :=
  fun h => match c h with
           | Ok (a, h') => k a h'
           | Raise e => Raise e
           end.
Definition lift {A} (r : pyres A) : Py A :=
  fun h => match r with Ok a => Ok (a, h) | Raise e => Raise e end.
(** [object()], [[]], [{}]: a new identity. *)
Definition alloc : Py nat := fun h => Ok (h, S h).

(** stdpp's monadic notation [x ← c; k] for [Py]. *)
#[export] Instance Py_ret : MRet Py := @ret.
#[export] Instance Py_bind : MBind Py := @bind.

(** ** Builtins *)

(** [a == b].  Lists and tuples compare element by element, objects by
    identity.  For two dicts Python compares the sizes and then looks each
    key of the left one up in the right one; on dicts whose keys are
    unique this is mutual inclusion of the entries, which is how it is
    written here. *)
Fixpoint py_eq (a b : pyval) {struct a} : bool :=
  let seq_eq :=
    fix seq_eq (xs ys : list pyval) {struct xs} : bool :=
      match xs, ys with
      | [], [] => true
      | x :: xs', y :: ys' => py_eq x y && seq_eq xs' ys'
      | _, _ => false
      end in
  match a, b with
  | PNone, PNone => true
  | PInt x, PInt y => (x =? y)
  | PStr s, PStr t => String.eqb s t
  | PTuple xs, PTuple ys => seq_eq xs ys
  | PList _ xs, PList _ ys => seq_eq xs ys
  | PDict _ d, PDict _ e =>
      Nat.eqb (length d) (length e)
      && (fix incl_l (d : list (pyval * pyval)) : bool :=
            match d with
            | [] => true
            | (k, v) :: d' =>
                existsb (fun kv' => py_eq k (fst kv') && py_eq v (snd kv')) e
                && incl_l d'
            end) d
      && forallb (fun kv' =>
            (fix mem_r (d : list (pyval * pyval)) : bool :=
               match d with
               | [] => false
               | (k, v) :: d' =>
                   (py_eq k (fst kv') && py_eq v (snd kv')) || mem_r d'
               end) d) e
  | PObj i, PObj j => Nat.eqb i j
  | _, _ => false
  end.

(** [hash(x)] succeeds: lists and dicts are unhashable, a tuple is
    hashable when its items are. *)
Fixpoint py_hashable (x : pyval) : bool :=
  match x with
  | PNone | PInt _ | PStr _ | PObj _ => true
  | PTuple items => forallb py_hashable items
  | PList _ _ | PDict _ _ => false
  end.

(** The entry a dict holds for [key], found with [==]. *)
Fixpoint dict_get (key : pyval) (entries : list (pyval * pyval))
  : option pyval :=
  match entries with
  | [] => None
  | (k, v) :: rest => if py_eq k key then Some v else dict_get key rest
  end.

(** Position [i] of a sequence of [len] items: a negative index counts from
    the end; [None] when it falls outside. *)
Definition py_index (len : nat) (i : Z) : option nat :=
  let j := if i <? 0 then i + Z.of_nat len else i in
  if (0 <=? j) && (j <? Z.of_nat len) then Some (Z.to_nat j) else None.

(** [obj[key]] (no slices). *)
Definition py_getitem (obj key : pyval) : pyres pyval :=
  match obj with
  | PList _ items | PTuple items =>
      match key with
      | PInt i =>
          match py_index (length items) i with
          | Some n => match items !! n with
                      | Some v => Ok v
                      | None => Raise IndexError
                      end
          | None => Raise IndexError
          end
      | _ => Raise TypeError
      end
  | PStr s =>
      match key with
      | PInt i =>
          match py_index (String.length s) i with
          | Some n => match String.get n s with
                      | Some c => Ok (PStr (String c EmptyString))
                      | None => Raise IndexError
                      end
          | None => Raise IndexError
          end
      | _ => Raise TypeError
      end
  | PDict _ entries =>
      if py_hashable key
      then match dict_get key entries with
           | Some v => Ok v
           | None => Raise KeyError
           end
      else Raise TypeError
  | PNone | PInt _ | PObj _ => Raise TypeError
  end.

(** [copy.deepcopy(x)]: immutable leaves are returned as they are, every
    list, dict and object is rebuilt under a new identity (the memo that
    keeps sharing inside the copy is not tracked). *)
Fixpoint deepcopy (x : pyval) {struct x} : Py pyval :=
  let copy_items :=
    fix copy_items (l : list pyval) {struct l} : Py (list pyval) :=
      match l with
      | [] => ret []
      | a :: l' => b ← deepcopy a; bs ← copy_items l'; ret (b :: bs)
      end in
  match x with
  | PNone | PInt _ | PStr _ => ret x
  | PTuple items => ys ← copy_items items; ret (PTuple ys)
  | PList _ items => i ← alloc; ys ← copy_items items; ret (PList i ys)
  | PDict _ entries =>
      i ← alloc;
      es ← (fix copy_entries (d : list (pyval * pyval)) {struct d}
               : Py (list (pyval * pyval)) :=
               match d with
               | [] => ret []
               | (k, v) :: d' =>
                   k' ← deepcopy k; v' ← deepcopy v;
                   es ← copy_entries d'; ret ((k', v') :: es)
               end) entries;
      ret (PDict i es)
  | PObj _ => i ← alloc; ret (PObj i)
  end.

(** [a + b]. *)
Definition py_add (a b : pyval) : Py pyval :=
  match a, b with
  | PInt x, PInt y => ret (PInt (x + y))
  | PStr s, PStr t => ret (PStr (s ++ t))
  | PTuple xs, PTuple ys => ret (PTuple (xs ++ ys))
  | PList _ xs, PList _ ys => i ← alloc; ret (PList i (xs ++ ys))
  | _, _ => raise TypeError
  end.

Fixpoint chars (s : string) : list pyval :=
  match s with
  | EmptyString => []
  | String c s' => PStr (String c EmptyString) :: chars s'
  end.

(** The items [for _ in x] visits. *)
Definition py_iter (x : pyval) : pyres (list pyval) :=
  match x with
  | PTuple items | PList _ items => Ok items
  | PStr s => Ok (chars s)
  | PDict _ entries => Ok (map fst entries)
  | PNone | PInt _ | PObj _ => Raise TypeError
  end.

Fixpoint add_all (acc : pyval) (items : list pyval) : Py pyval :=
  match items with
  | [] => ret acc
  | x :: rest => acc' ← py_add acc x; add_all acc' rest
  end.

(** The builtin [sum(iterable, start)]. *)
Definition py_sum (iterable start : pyval) : Py pyval :=
  items ← lift (py_iter iterable);
  match start with
  | PStr _ => raise TypeError
  | _ => add_all start items
  end.

(** [a < b]: integers, strings (by code point), and lists or tuples
    lexicographically, the first items that differ under [==] deciding;
    anything else is not ordered. *)
Fixpoint py_lt (a b : pyval) {struct a} : pyres bool :=
  let seq_lt :=
    fix seq_lt (xs ys : list pyval) {struct xs} : pyres bool :=
      match xs, ys with
      | [], [] => Ok false
      | [], _ :: _ => Ok true
      | _ :: _, [] => Ok false
      | x :: xs', y :: ys' => if py_eq x y then seq_lt xs' ys' else py_lt x y
      end in
  match a, b with
  | PInt x, PInt y => Ok (x <? y)
  | PStr s, PStr t => Ok (String.ltb s t)
  | PTuple xs, PTuple ys => seq_lt xs ys
  | PList _ xs, PList _ ys => seq_lt xs ys
  | _, _ => Raise TypeError
  end.

(** The builtins [min(a, b)] and [max(a, b)]: [b] is taken when [b < a],
    respectively [b > a] (on this fragment, [a < b]). *)
Definition py_min (a b : pyval) : Py pyval :=
  less ← lift (py_lt b a); ret (if (less : bool) then b else a).

Definition py_max (a b : pyval) : Py pyval :=
  greater ← lift (py_lt a b); ret (if (greater : bool) then b else a).

(** [x is o] for a bare object [o] of identity [i]. *)
Definition py_is_obj (x : pyval) (i : nat) : bool :=
  match x with
  | PObj j => Nat.eqb j i
  | _ => false
  end.

(** ** The stage runtime *)

(** What a [handle] activation hands back to the runtime: [None], the END
    marker (a stage that ends itself, as Take does), or whatever the
    awaited [put] returned ([return await put(END)]). *)
Inductive retval : Type :=
| RetNone
| RetEND
| RetOfPut.

(** One [handle(get, put)] activation of a stage with attributes [S]: the
    datum read by [get], the attributes after the activation, the data
    written with [put] / [self.put] in order, and the returned value. *)
Definition activation (S : Type) : Type := S -> msg -> Py (S * list msg * retval).

(** Successive activations of one stage instance on a list of data.  The
    data written so far stay written when an activation raises. *)
Fixpoint dispatch_all {S} (handle : activation S) (self : S)
  (inputs : list msg) (h : heap) : list msg * pyres (S * heap) :=
  match inputs with
  | [] => ([], Ok (self, h))
  | m :: rest =>
      match handle self m h with
      | Raise e => ([], Raise e)
      | Ok (self', puts, _, h') =>
          let '(out, r) := dispatch_all handle self' rest h' in
          (puts ++ out, r)
      end
  end.

(** Modelled from the spec: the default [handle_stream] of the task runtime
    (BaseTask, not under src/), which "repeatedly awaits one item and
    dispatches to handle(get, put) until END": one activation per item of
    the stream, then the activation that reads END.  Only what the
    activations write is recorded. *)
Definition default_handle_stream {S} (handle : activation S) (self : S)
  (items : list pyval) (h : heap) : list msg * pyres (S * heap) :=
  dispatch_all handle self (map Item items ++ [END]) h.

(** Modelled from the spec: the [handle] a stage inherits when it only
    overrides [handle_stream] (BaseTask.handle, not under src/).  Reached
    through [self.handler(self, async_getter(data), self.put)] it forwards
    the datum it gets ("forwarding every item; single END at the end"). *)
Definition forward (data : msg) : list msg := [data].

(** ** Concat *)
Module Concat.
Section handler.
(** [self.handler]: what one dispatch writes to the output edge. *)
Variable handler : msg -> list msg.

(** [async for data in q: await self.handler(...)] *)
Fixpoint drain (q : list pyval) : list msg :=
  match q with
  | [] => []
  | data :: q' => handler (Item data) ++ drain q'
  end.

(** A queue is given by the real items it yields before its END. *)
Fixpoint handle_stream (queues : list (list pyval)) : list msg :=
  match queues with
  | [] => handler END
  | q :: rest => drain q ++ handle_stream rest
  end.
End handler.
End Concat.

(** ** Mix *)
Module Mix.
(** An input queue of the consumer; [q.ch] is a ConstantChannel or not. *)
Record queue : Type := { ch_is_constant : bool }.

(** What [await asyncio.wait(tasks, return_when=FIRST_EXCEPTION)] answers,
    the drainers being numbered as their queues: the finished drainers with
    their [task.exception()] ([None] when [pump_queue] returned), in the
    order in which [for task in done] meets them; the drainers still
    running; and the data the drainers have dispatched to the handler by
    then, in the order of the dispatches. *)
Record waited : Type := {
  done : list (nat * option exn);
  pending : list nat;
  pumped : list pyval
}.

(** What [handle_stream] leaves behind: the data written, the exception it
    raised if any, and the drainers that are still running. *)
Record outcome : Type := {
  written : list msg;
  raised : option exn;
  running : list nat
}.

Section handler.
(** [self.handler]: what one dispatch writes to the output edge. *)
Variable handler : msg -> list msg.

(** [pump_queue]: [async for data in q: await self.handler(...)], for the
    data dispatched so far. *)
Fixpoint pump (data : list pyval) : list msg :=
  match data with
  | [] => []
  | d :: rest => handler (Item d) ++ pump rest
  end.

(** [for task in done: if task.exception() is not None: raise ...] *)
Fixpoint first_exception (done : list (nat * option exn)) : option exn :=
  match done with
  | [] => None
  | (_, Some e) :: _ => Some e
  | (_, None) :: rest => first_exception rest
  end.

(** [pending] is bound and never used: no drainer is cancelled.  With a
    constant channel among the inputs no drainer is started. *)
Definition handle_stream (queues : list queue) (w : waited) : outcome :=
  if existsb ch_is_constant queues
  then {| written := []; raised := Some ValueError; running := [] |}
  else
    match first_exception (done w) with
    | Some e =>
        {| written := pump (pumped w); raised := Some e;
           running := pending w |}
    | None =>
        {| written := pump (pumped w) ++ handler END; raised := None;
           running := pending w |}
    end.
End handler.
End Mix.

(** ** Sample *)
Module Sample.
Record state : Type := { num : Z; reservoir : list pyval }.

(** [Sample(num)]: [assert num >= 1]. *)
Definition init (num : Z) : pyres state :=
  if 1 <=? num then Ok {| num := num; reservoir := [] |}
  else Raise AssertionError.

(** [l[i] = v] *)
Definition setitem (l : list pyval) (i : Z) (v : pyval)
  : pyres (list pyval) :=
  match py_index (length l) i with
  | Some n => Ok (<[n := v]> l)
  | None => Raise IndexError
  end.

(** [l[0:stop]] *)
Definition slice_to (l : list pyval) (stop : Z) : list pyval :=
  let stop' := if stop <? 0 then Z.max 0 (stop + Z.of_nat (length l))
               else stop in
  take (Z.to_nat stop') l.

Section stream.
Variable handler : msg -> list msg.
(** [random.randint(a, b)]: the draws are an input of the model. *)
Variable randint : Z -> Z -> Z.

(** The body of [async for data in consumer], from counter [cur]. *)
Fixpoint fill (num : Z) (reservoir : list pyval) (cur : Z)
  (items : list pyval) : pyres (list pyval * Z) :=
  match items with
  | [] => Ok (reservoir, cur)
  | data :: rest =>
      if cur <? num then fill num (reservoir ++ [data]) (cur + 1) rest
      else
        let i := randint 0 cur in
        if i <? num then
          match setitem reservoir i data with
          | Ok reservoir' => fill num reservoir' (cur + 1) rest
          | Raise e => Raise e
          end
        else fill num reservoir (cur + 1) rest
  end.

Definition handle_stream (self : state) (items : list pyval)
  : pyres (state * list msg) :=
  match fill (num self) (reservoir self) 0 items with
  | Raise e => Raise e
  | Ok (reservoir', cur) =>
      Ok ({| num := num self; reservoir := reservoir' |},
          flat_map (fun data => handler (Item data)) (slice_to reservoir' cur)
          ++ handler END)
  end.
End stream.
End Sample.

(** ** Filter and Distinct *)
Module Filter.
(** [by]: a callable (for the subclasses a bound method, which reads
    and updates the attributes [S] of the stage and answers with the
    truth value of what it returns), or any other object. *)
Inductive by_arg (S : Type) : Type :=
| Callable (f : S -> pyval -> Py (bool * S))
| Value (v : pyval).
Arguments Callable {S} f.
Arguments Value {S} v.

(** [self.by(data) if callable(self.by) else data == self.by] *)
Definition keep {S} (by_ : by_arg S) (self : S) (data : pyval)
  : Py (bool * S) :=
  match by_ with
  | Callable f => f self data
  | Value v => ret (py_eq data v, self)
  end.

Section handler.
Variable handler : msg -> list msg.

Fixpoint handle_stream {S} (by_ : by_arg S) (self : S)
  (items : list pyval) (h : heap) : list msg * pyres (S * heap) :=
  match items with
  | [] => (handler END, Ok (self, h))
  | data :: rest =>
      match keep by_ self data h with
      | Raise e => ([], Raise e)
      | Ok (k, self', h') =>
          let '(out, r) := handle_stream by_ self' rest h' in
          ((if k then handler (Item data) else []) ++ out, r)
      end
  end.
End handler.
End Filter.

Module Distinct.
Record state : Type := { prev : pyval }.

(** [self.prev = object()] *)
Definition init : Py state := i ← alloc; ret {| prev := PObj i |}.

Definition filter (self : state) (data : pyval) : Py (bool * state) :=
  if py_eq data (prev self) then ret (false, self)
  else ret (true, {| prev := data |}).

Definition handle_stream (handler : msg -> list msg) :=
  Filter.handle_stream handler (Filter.Callable filter).
End Distinct.

(** ** GetItem *)
Module GetItem.
Record state : Type := { key : pyval; default : pyval }.

Definition init (key default : pyval) : state :=
  {| key := key; default := default |}.

(** [except (TypeError, KeyError, IndexError)] *)
Definition caught (e : exn) : bool :=
  match e with
  | TypeError | KeyError | IndexError => true
  | ValueError | RuntimeError | AssertionError => false
  end.

Definition handle : activation state := fun self m =>
  match m with
  | END => ret (self, [END], RetOfPut)
  | Item data =>
      match py_getitem data (key self) with
      | Ok v => ret (self, [Item v], RetNone)
      | Raise e =>
          if caught e
          then d ← deepcopy (default self); ret (self, [Item d], RetNone)
          else raise e
      end
  end.
End GetItem.

(** ** Reduce and its subclasses *)
Module Reduce.
(** [NOTSET = object()]: created once, with the class. *)
Definition NOTSET_id : nat := 0%nat.
Definition NOTSET : pyval := PObj NOTSET_id.

Record state : Type := {
  fn : pyval -> pyval -> Py pyval;
  result : pyval;
  prev_result : pyval
}.

(** [Reduce(by, result=NOTSET)] *)
Definition init (by_ : pyval -> pyval -> Py pyval) (result : pyval)
  : state :=
  {| fn := by_; result := result; prev_result := NOTSET |}.

Definition handle : activation state := fun self m =>
  match m with
  | Item data =>
      r ← fn self (result self) data;
      ret ({| fn := fn self; result := r; prev_result := result self |},
           [], RetNone)
  | END =>
      ret ({| fn := fn self; result := NOTSET;
              prev_result := prev_result self |},
           if py_is_obj (prev_result self) NOTSET_id then []
           else [Item (result self)],
           RetNone)
  end.
End Reduce.

(** [Sum()]: [Reduce(by=sum, result=0)], [sum] being the builtin. *)
Module Sum.
Definition init : Reduce.state := Reduce.init py_sum (PInt 0).
End Sum.

(** [Count()]: [Reduce(by=lambda a, b: a + 1, result=0)]. *)
Module Count.
Definition init : Reduce.state :=
  Reduce.init (fun a b => py_add a (PInt 1)) (PInt 0).
End Count.

(** [Min(result)] and [Max(result)]: [Reduce(by=min, result=result)] and
    [Reduce(by=max, result=result)].  The defaults of [result], [POS_INF]
    and [NEG_INF], come from aiosaber.utility.typings, which is not under
    src/, and are floats: here [result] is always given. *)
Module Min.
Definition init (result : pyval) : Reduce.state := Reduce.init py_min result.
End Min.

Module Max.
Definition init (result : pyval) : Reduce.state := Reduce.init py_max result.
End Max.

(** ** Flatten *)
Module Flatten.
Record state : Type := { max_level : Z }.

(** [self.max_level = max_level or 999999999999]; [None] is the argument
    [max_level=None]. *)
Definition init (max_level : option Z) : state :=
  match max_level with
  | Some n => {| max_level := if n =? 0 then 999999999999 else n |}
  | None => {| max_level := 999999999999 |}
  end.

(** [Flatten()]: the default is [max_level=1]. *)
Definition default_init : state := init (Some 1).

(** The inner [traverse]; the result is what it appends to
    [flattened_items].  A [TypeError] is raised, and caught by the same
    call, at the level bound and at anything but a list or tuple. *)
Fixpoint traverse (max_level : Z) (items : pyval) (level : Z)
  {struct items} : list pyval :=
  if level >=? max_level + 1 then [items]
  else
    match items with
    | PTuple l | PList _ l =>
        flat_map (fun _item => traverse max_level _item (level + 1)) l
    | PNone | PInt _ | PStr _ | PDict _ _ | PObj _ => [items]
    end.

Definition handle : activation state := fun self m =>
  match m with
  | END => ret (self, [END], RetOfPut)
  | Item data =>
      ret (self, map Item (traverse (max_level self) data 1), RetNone)
  end.
End Flatten.

(** ** Group *)
Module Group.
(** Modelled from the spec: [num] is an [int] or the default [POS_INF];
    [POS_INF] is defined in aiosaber.utility.typings, which is not under
    src/, and the spec gives it no value: by its name it is positive
    infinity, a value above every integer. *)
Inductive size : Type :=
| Num (n : Z)
| POS_INF.

(** [a > 1] and [len >= a] *)
Definition gt_one (a : size) : bool :=
  match a with Num n => n >? 1 | POS_INF => true end.
Definition reached (len : nat) (a : size) : bool :=
  match a with Num n => Z.of_nat len >=? n | POS_INF => false end.

(** [self.groups]: a [defaultdict(list)], in insertion order. *)
Definition table : Type := list (pyval * list pyval).

Record state : Type := {
  key_fn : pyval -> Py pyval;
  group_size : size;
  keep_rest : bool;
  groups : table
}.

(** [by]'s default, [lambda x: x[0]]. *)
Definition first_item (x : pyval) : Py pyval := lift (py_getitem x (PInt 0)).

(** [Group(by, num, keep)]: [assert num > 1]. *)
Definition init (by_ : pyval -> Py pyval) (num : size) (keep : bool)
  : pyres state :=
  if gt_one num
  then Ok {| key_fn := by_; group_size := num; keep_rest := keep;
             groups := [] |}
  else Raise AssertionError.

Fixpoint lookup (key : pyval) (t : table) : option (list pyval) :=
  match t with
  | [] => None
  | (k, vs) :: t' => if py_eq k key then Some vs else lookup key t'
  end.

(** [t[key]] of a defaultdict: the bucket of [key]; a missing key is
    first inserted with [[]]. *)
Definition getitem (key : pyval) (t : table) : list pyval * table :=
  match lookup key t with
  | Some vs => (vs, t)
  | None => ([], t ++ [(key, [])])
  end.

(** The bucket of [key] is a list held by the table: what is appended to
    it is seen through the table. *)
Fixpoint store (key : pyval) (vs' : list pyval) (t : table) : table :=
  match t with
  | [] => []
  | (k, vs) :: t' =>
      if py_eq k key then (k, vs') :: t'
      else (k, vs) :: store key vs' t'
  end.

(** [del t[key]] *)
Fixpoint remove (key : pyval) (t : table) : table :=
  match t with
  | [] => []
  | (k, vs) :: t' =>
      if py_eq k key then t' else (k, vs) :: remove key t'
  end.

Definition emit (key : pyval) (values : list pyval) : msg :=
  Item (PTuple [key; PTuple values]).

Definition with_groups (self : state) (t : table) : state :=
  {| key_fn := key_fn self; group_size := group_size self;
     keep_rest := keep_rest self; groups := t |}.

Definition handle : activation state := fun self m =>
  match m with
  | Item data =>
      key ← key_fn self data;
      if py_hashable key then
        let '(group0, t) := getitem key (groups self) in
        let group := group0 ++ [data] in
        let t := store key group t in
        if reached (length group) (group_size self)
        then ret (with_groups self (remove key t), [emit key group], RetNone)
        else ret (with_groups self t, [], RetNone)
      else raise TypeError
  | END =>
      if keep_rest self
      then ret (with_groups self [],
                map (fun kv => emit (fst kv) (snd kv)) (groups self),
                RetNone)
      else ret (self, [], RetNone)
  end.
End Group.

(** ** Until *)
Module Until.
(** [by]: a predicate (answering with the truth value of what it
    returns), or an object to compare with. *)
Inductive by_arg : Type :=
| Callable (f : pyval -> Py bool)
| Value (v : pyval).

Record state : Type := { by_ : by_arg; stop : bool }.

Definition init (by_ : by_arg) : state := {| by_ := by_; stop := false |}.

Definition handle : activation state := fun self m =>
  match m with
  | Item data =>
      if negb (stop self) then
        s ← match by_ self with
            | Callable f => f data
            | Value v => ret (py_eq data v)
            end;
        ret ({| by_ := by_ self; stop := s |},
             if negb s then [Item data] else [], RetNone)
      else ret (self, [], RetNone)
  | END => ret (self, [], RetNone)
  end.
End Until.

(** ** Collect *)
Module Collect.
Section handler.
Variable handler : msg -> list msg.

(** [values = [data async for data in consumer]] builds a new list. *)
Definition handle_stream (items : list pyval) : Py (list msg) :=
  i ← alloc;
  ret (handler (Item (PList i items)) ++ handler END).
End handler.
End Collect.

(** ** Unique *)
Module Unique.
(** [self.cache]: a set, kept as the list of its members. *)
Record state : Type := { cache : list pyval }.

Definition init : state := {| cache := [] |}.

(** [data in self.cache] hashes [data] and compares it with [==]. *)
Definition filter (self : state) (data : pyval) : Py (bool * state) :=
  if py_hashable data then
    if existsb (fun c => py_eq c data) (cache self) then ret (false, self)
    else ret (true, {| cache := cache self ++ [data] |})
  else raise TypeError.

Definition handle_stream (handler : msg -> list msg) :=
  Filter.handle_stream handler (Filter.Callable filter).
End Unique.

(** ** Branch *)

(** An activation that names the output it writes to: [put(data, index)]
    carries [Some index], [put(data)] carries [None]. *)
Definition routed_activation (S : Type) : Type :=
  S -> msg -> Py (S * list (option pyval * msg) * retval).

(** Successive routed activations of one stage instance (as
    [dispatch_all]). *)
Fixpoint dispatch_routed {S} (handle : routed_activation S) (self : S)
  (inputs : list msg) (h : heap)
  : list (option pyval * msg) * pyres (S * heap) :=
  match inputs with
  | [] => ([], Ok (self, h))
  | m :: rest =>
      match handle self m h with
      | Raise e => ([], Raise e)
      | Ok (self', puts, _, h') =>
          let '(out, r) := dispatch_routed handle self' rest h' in
          (puts ++ out, r)
      end
  end.

(** Modelled from the spec: [put] belongs to the task runtime, which is not
    under src/; it "enqueues onto output channel index, or broadcasts to
    all outputs when no index is given".  [edge j out] is what output [j]
    receives of the writes [out]. *)
Fixpoint edge (j : Z) (out : list (option pyval * msg)) : list msg :=
  match out with
  | [] => []
  | (None, m) :: rest => m :: edge j rest
  | (Some (PInt i), m) :: rest =>
      if i =? j then m :: edge j rest else edge j rest
  | (Some _, _) :: rest => edge j rest
  end.

Module Branch.
Record state : Type := { num_out : Z; fn : pyval -> Py pyval }.

(** [Branch(num, by)]: [assert num > 1 and callable(by)]; [by] is a
    callable by its type. *)
Definition init (num : Z) (by_ : pyval -> Py pyval) : pyres state :=
  if num >? 1 then Ok {| num_out := num; fn := by_ |}
  else Raise AssertionError.

(** [chosen_index >= self.num_out], [num_out] being an [int]. *)
Definition index_ge (chosen_index : pyval) (n : Z) : pyres bool :=
  match chosen_index with
  | PInt i => Ok (i >=? n)
  | PNone | PStr _ | PTuple _ | PList _ _ | PDict _ _ | PObj _ =>
      Raise TypeError
  end.

Definition handle : routed_activation state := fun self m =>
  match m with
  | END => ret (self, [(None, END)], RetOfPut)
  | Item data =>
      chosen_index ← fn self data;
      too_large ← lift (index_ge chosen_index (num_out self));
      if (too_large : bool) then raise RuntimeError
      else ret (self, [(Some chosen_index, Item data)], RetNone)
  end.
End Branch.

(** ** Subscribe *)
Module Subscribe.
Section world.
(** What the callbacks act on. *)
Variable U : Type.

(** [on_next] and [on_complete]: a callback, or [None]. *)
Record state : Type := {
  on_next : option (pyval -> U -> Py U);
  on_complete : option (U -> Py U)
}.

Definition call_next (self : state) (data : pyval) (u : U) : Py U :=
  match on_next self with
  | Some f => f data u
  | None => ret u
  end.

Definition call_complete (self : state) (u : U) : Py U :=
  match on_complete self with
  | Some f => f u
  | None => ret u
  end.

Definition handle : activation (state * U) := fun '(self, u) m =>
  match m with
  | END => u' ← call_complete self u; ret ((self, u'), [END], RetNone)
  | Item data =>
      u' ← call_next self data u; ret ((self, u'), [Item data], RetNone)
  end.
End world.
End Subscribe.

(** ** Map *)
Module Map.
Record state : Type := { fn : pyval -> Py pyval }.

Definition handle : activation state := fun self m =>
  match m with
  | Item data => r ← fn self data; ret (self, [Item r], RetNone)
  | END => ret (self, [END], RetNone)
  end.
End Map.

(** ** Take *)
Module Take.
Record state : Type := { num : Z }.

(** [Take(num)]: [assert num >= 1]. *)
Definition init (num : Z) : pyres state :=
  if 1 <=? num then Ok {| num := num |} else Raise AssertionError.

Definition handle : activation state := fun self m =>
  match m with
  | Item data =>
      if num self >? 0 then
        let num' := num self - 1 in
        ret ({| num := num' |}, [Item data],
             if num' <=? 0 then RetEND else RetNone)
      else ret (self, [], RetNone)
  | END => ret (self, [], RetNone)
  end.
End Take.

(** ** Last *)
Module Last.
(** [NOTSET = object()]: the class has its own, created after the one of
    Reduce. *)
Definition NOTSET_id : nat := 1%nat.
Definition NOTSET : pyval := PObj NOTSET_id.

Record state : Type := { prev : pyval }.

Definition init : state := {| prev := NOTSET |}.

Definition handle : activation state := fun self m =>
  match m with
  | Item data => ret ({| prev := data |}, [], RetNone)
  | END =>
      ret ({| prev := NOTSET |},
           if py_is_obj (prev self) NOTSET_id then [] else [Item (prev self)],
           RetNone)
  end.
End Last.

(** The values returned by successive activations of one stage instance,
    up to the first one that raises. *)
Fixpoint dispatch_rets {S} (handle : activation S) (self : S)
  (inputs : list msg) (h : heap) : list retval :=
  match inputs with
  | [] => []
  | m :: rest =>
      match handle self m h with
      | Raise _ => []
      | Ok (self', _, r, h') => r :: dispatch_rets handle self' rest h'
      end
  end.

(** ** Notions used to state the properties *)

(** Equality of two sequences, item by item. *)
Fixpoint seq_eqb (xs ys : list pyval) {struct xs} : bool :=
  match xs, ys with
  | [], [] => true
  | x :: xs', y :: ys' => py_eq x y && seq_eqb xs' ys'
  | _, _ => false
  end.

Definition pair_eqb (kv kv' : pyval * pyval) : bool :=
  py_eq (fst kv) (fst kv') && py_eq (snd kv) (snd kv').

(** Equality of the entries of two dicts. *)
Definition entries_eqb (d e : list (pyval * pyval)) : bool :=
  Nat.eqb (length d) (length e)
  && forallb (fun kv => existsb (fun kv' => pair_eqb kv kv') e) d
  && forallb (fun kv' => existsb (fun kv => pair_eqb kv kv') d) e.

(** The value of [x] with the identities of its objects erased. *)
Fixpoint erase (x : pyval) : pyval :=
  match x with
  | PNone | PInt _ | PStr _ => x
  | PTuple l => PTuple (map erase l)
  | PList _ l => PList 0 (map erase l)
  | PDict _ d => PDict 0 (map (fun kv => (erase (fst kv), erase (snd kv))) d)
  | PObj _ => PObj 0
  end.

(** The identities of the objects [x] is made of. *)
Fixpoint ids (x : pyval) : list nat :=
  match x with
  | PNone | PInt _ | PStr _ => []
  | PTuple l => flat_map ids l
  | PList i l => i :: flat_map ids l
  | PDict i d => i :: flat_map (fun kv => ids (fst kv) ++ ids (snd kv)) d
  | PObj i => [i]
  end.

(** [deepcopy] item by item, and entry by entry. *)
Fixpoint copy_items (l : list pyval) : Py (list pyval) :=
  match l with
  | [] => ret []
  | a :: l' => b ← deepcopy a; bs ← copy_items l'; ret (b :: bs)
  end.

Fixpoint copy_entries (d : list (pyval * pyval)) : Py (list (pyval * pyval)) :=
  match d with
  | [] => ret []
  | (k, v) :: d' =>
      k' ← deepcopy k; v' ← deepcopy v;
      es ← copy_entries d'; ret ((k', v') :: es)
  end.

Definition is_END (m : msg) : bool :=
  match m with END => true | Item _ => false end.

(** Distinct in the words of the spec: "drop an item that equals the
    immediately preceding item"; [before] is the item that came just
    before [items] on the input, if any. *)
Fixpoint drop_repeats (before : option pyval) (items : list pyval)
  : list pyval :=
  match items with
  | [] => []
  | d :: rest =>
      let kept := drop_repeats (Some d) rest in
      match before with
      | Some p => if py_eq d p then kept else d :: kept
      | None => d :: kept
      end
  end.

(** The fold of a stream by [fn] from an accumulator. *)
Fixpoint running_fold (fn : pyval -> pyval -> Py pyval) (acc : pyval)
  (items : list pyval) : Py pyval :=
  match items with
  | [] => ret acc
  | d :: rest => acc' ← fn acc d; running_fold fn acc' rest
  end.

(** Sample in the words of the spec: "item i (0-indexed) is stored
    directly while i<k; for i>=k, draw r uniform in [0,i]; if r<k replace
    reservoir slot r".  [draw i] is the value drawn for item [i]. *)
Definition reservoir_step (k : Z) (draw : Z -> Z) (res : list pyval) (i : Z)
  (d : pyval) : list pyval :=
  if i <? k then res ++ [d]
  else if draw i <? k then <[Z.to_nat (draw i) := d]> res
  else res.

Fixpoint reservoir_run (k : Z) (draw : Z -> Z) (res : list pyval) (i : Z)
  (items : list pyval) : list pyval :=
  match items with
  | [] => res
  | d :: rest =>
      reservoir_run k draw (reservoir_step k draw res i d) (i + 1) rest
  end.

(** [y] is a copy of [x] made of objects created from [h] on, [h'] being
    the identities handed out afterwards. *)
Definition copy_of (x : pyval) (h : heap) (y : pyval) (h' : heap) : Prop :=
  erase y = erase x
  /\ (h <= h')%nat
  /\ Forall (fun i => (h <= i < h')%nat) (ids y).

Definition copies (x : pyval) : Prop :=
  forall h, exists y h', deepcopy x h = Ok (y, h') /\ copy_of x h y h'.

(** The list [[1,2],[3,[4,5]]]. *)
Definition nested_12_345 : pyval :=
  PList 1 [PList 2 [PInt 1; PInt 2];
           PList 3 [PInt 3; PList 4 [PInt 4; PInt 5]]].

(** Group: no two entries of the table have equal keys. *)
Fixpoint keys_distinct (t : Group.table) : Prop :=
  match t with
  | [] => True
  | (k, _) :: t' => Group.lookup k t' = None /\ keys_distinct t'
  end.

(** Group: a bucket of [n] items is below the group size. *)
Definition Group_below (a : Group.size) (n : nat) : Prop :=
  match a with
  | Group.Num k => Z.of_nat n < k
  | Group.POS_INF => True
  end.

Definition Group_bounded (a : Group.size) (t : Group.table) : Prop :=
  Forall (fun kv => Group_below a (length (snd kv))) t.

(** What holds of a Group stage between two activations. *)
Definition Group_inv (self : Group.state) : Prop :=
  Group.gt_one (Group.group_size self) = true
  /\ keys_distinct (Group.groups self)
  /\ Group_bounded (Group.group_size self) (Group.groups self).

(** The bucket the table holds for [key], empty when there is none. *)
Definition bucket_of (key : pyval) (t : Group.table) : list pyval :=
  match Group.lookup key t with
  | Some vs => vs
  | None => []
  end.

(** A key function for the examples: [lambda x: x % 2] on integers. *)
Definition parity (x : pyval) : Py pyval :=
  match x with
  | PInt z => ret (PInt (z mod 2))
  | _ => raise TypeError
  end.

(** Until: the stop condition holds of [data], the objects in existence
    going from [h] to [h'] while it is evaluated. *)
Definition Until_matches (by_ : Until.by_arg) (data : pyval) (h h' : heap)
  : Prop :=
  match by_ with
  | Until.Callable f => f data h = Ok (true, h')
  | Until.Value v => py_eq data v = true /\ h' = h
  end.

(** The items a stage wrote before its END. *)
Fixpoint payload (out : list msg) : list pyval :=
  match out with
  | Item d :: rest => d :: payload rest
  | END :: _ | [] => []
  end.

(** The first occurrence of each value of [items] that is not among
    [seen], the values met so far. *)
Fixpoint first_occurrences (seen items : list pyval) : list pyval :=
  match items with
  | [] => []
  | d :: rest =>
      if existsb (fun c => py_eq c d) seen then first_occurrences seen rest
      else d :: first_occurrences (seen ++ [d]) rest
  end.

(** No two items of the list are equal. *)
Fixpoint distinct_values (l : list pyval) : Prop :=
  match l with
  | [] => True
  | x :: l' => Forall (fun y => py_eq x y = false) l' /\ distinct_values l'
  end.

(** No item of the list equals the one just before it; [before] is the
    item that comes before the list, if any. *)
Fixpoint no_repeats (before : option pyval) (l : list pyval) : Prop :=
  match l with
  | [] => True
  | x :: l' =>
      match before with
      | Some p => py_eq x p = false
      | None => True
      end /\ no_repeats (Some x) l'
  end.

(** The atoms of a value, in order: what is left when every list and
    tuple is opened. *)
Fixpoint leaves (x : pyval) : list pyval :=
  match x with
  | PTuple l | PList _ l => flat_map leaves l
  | PNone | PInt _ | PStr _ | PDict _ _ | PObj _ => [x]
  end.

(** How deep lists and tuples are nested in a value. *)
Fixpoint depth (x : pyval) : nat :=
  match x with
  | PTuple l | PList _ l => S (foldr (fun y m => Nat.max (depth y) m) 0%nat l)
  | PNone | PInt _ | PStr _ | PDict _ _ | PObj _ => 0%nat
  end.

(** [fn] applied to the items in order, up to the first call that
    raises. *)
Fixpoint map_py (fn : pyval -> Py pyval) (items : list pyval)
  : Py (list pyval) :=
  match items with
  | [] => ret []
  | d :: rest => r ← fn d; rs ← map_py fn rest; ret (r :: rs)
  end.

(** The items before the first one that satisfies [p]. *)
Fixpoint until_first (p : pyval -> bool) (items : list pyval) : list pyval :=
  match items with
  | [] => []
  | d :: rest => if p d then [] else d :: until_first p rest
  end.

(** The values a Group stage wrote in the tuple [m]. *)
Definition emitted_values (m : msg) : list pyval :=
  match m with
  | Item (PTuple [_; PTuple vs]) => vs
  | _ => []
  end.

(** Subscribe: [on_next] applied to the items in order. *)
Fixpoint call_nexts {U} (self : Subscribe.state U) (items : list pyval)
  (u : U) : Py U :=
  match items with
  | [] => ret u
  | d :: rest => u' ← Subscribe.call_next U self d u; call_nexts self rest u'
  end.

(** [asyncio.wait] with [return_when=FIRST_EXCEPTION] on the drainers of
    [n] queues: every drainer is either finished or pending, and some are
    pending only if a finished one has raised. *)
Definition Mix_waited (n : nat) (w : Mix.waited) : Prop :=
  map fst (Mix.done w) ++ Mix.pending w ≡ₚ seq 0 n
  /\ (Mix.pending w = []
      \/ Exists (fun t => snd t <> None) (Mix.done w)).

(** Three sources, none from a constant channel; and an answer of
    [asyncio.wait] for them: after the data 1 and 2 the drainer of the
    second has returned, the one of the first has raised KeyError and the
    one of the third is still running. *)
Definition Mix_three_queues : list Mix.queue :=
  [{| Mix.ch_is_constant := false |}; {| Mix.ch_is_constant := false |};
   {| Mix.ch_is_constant := false |}].

Definition Mix_first_failed : Mix.waited :=
  {| Mix.done := [(1%nat, None); (0%nat, Some KeyError)];
     Mix.pending := [2%nat];
     Mix.pumped := [PInt 1; PInt 2] |}.

(** The claim that a failing Mix cancels the remaining drainers: none is
    left running. *)
Definition Mix_cancels_the_rest : Prop :=
  forall queues w,
    existsb Mix.ch_is_constant queues = false ->
    Mix_waited (length queues) w ->
    Exists (fun t => snd t <> None) (Mix.done w) ->
    Mix.running (Mix.handle_stream forward queues w) = [].

(** A Reduce stage as [self], with [p] held by its attribute
    [prev_result]: [p] is the object NOTSET in the instance the constructor
    builds, and another object in a copy of the instance whose attributes
    are copied with it. *)
Definition Reduce_with_prev (p : pyval) (self : Reduce.state)
  : Reduce.state :=
  {| Reduce.fn := Reduce.fn self; Reduce.result := Reduce.result self;
     Reduce.prev_result := p |}.

(** Structural induction on values, through the nested lists. *)
Section pyval_induction.
Variable P : pyval -> Prop.
Hypothesis HNone : P PNone.
Hypothesis HInt : forall z, P (PInt z).
Hypothesis HStr : forall s, P (PStr s).
Hypothesis HTuple : forall l, Forall P l -> P (PTuple l).
Hypothesis HList : forall i l, Forall P l -> P (PList i l).
Hypothesis HDict : forall i d,
  Forall (fun kv => P (fst kv) /\ P (snd kv)) d -> P (PDict i d).
Hypothesis HObj : forall i, P (PObj i).

Fixpoint pyval_ind (x : pyval) : P x :=
  match x with
  | PNone => HNone
  | PInt z => HInt z
  | PStr s => HStr s
  | PTuple l =>
      HTuple l ((fix all (l : list pyval) : Forall P l :=
                   match l with
                   | [] => @List.Forall_nil _ P
                   | a :: l' => @List.Forall_cons _ P a l' (pyval_ind a) (all l')
                   end) l)
  | PList i l =>
      HList i l ((fix all (l : list pyval) : Forall P l :=
                    match l with
                    | [] => @List.Forall_nil _ P
                    | a :: l' => @List.Forall_cons _ P a l' (pyval_ind a) (all l')
                    end) l)
  | PDict i d =>
      HDict i d
        ((fix all (d : list (pyval * pyval))
            : Forall (fun kv => P (fst kv) /\ P (snd kv)) d :=
            match d with
            | [] => @List.Forall_nil _ _
            | (k, v) :: d' =>
                @List.Forall_cons _ (fun kv => P (fst kv) /\ P (snd kv))
                  (k, v) d' (conj (pyval_ind k) (pyval_ind v)) (all d')
            end) d)
  | PObj i => HObj i
  end.
End pyval_induction.

(** Case analysis on the integer tests of a goal. *)
Ltac case_Z_tests :=
  repeat match goal with
         | |- context [?a =? ?b] => destruct (Z.eqb_spec a b)
         | |- context [?a <=? ?b] => destruct (Z.leb_spec a b)
         | |- context [?a >? ?b] =>
             rewrite (Z.gtb_ltb a b); destruct (Z.ltb_spec b a)
         end;
  try reflexivity; try lia.

(** * Properties *)

(** ** Equality of values *)

Lemma py_eq_tuple xs ys : py_eq (PTuple xs) (PTuple ys) = seq_eqb xs ys.
Proof. reflexivity. Qed.

Lemma py_eq_list i j xs ys : py_eq (PList i xs) (PList j ys) = seq_eqb xs ys.
Proof. reflexivity. Qed.

Lemma py_eq_dict i j d e : py_eq (PDict i d) (PDict j e) = entries_eqb d e.
Proof.
  unfold entries_eqb. cbn [py_eq]. f_equal; [f_equal|].
  - induction d as [|[k v] d IH]; [reflexivity|].
    cbn [forallb]. rewrite <- IH. reflexivity.
  - induction e as [|kv' e IHe]; [reflexivity|].
    cbn [forallb]. f_equal; [|exact IHe]. clear IHe.
    induction d as [|[k v] d IH]; [reflexivity|].
    cbn [existsb]. rewrite <- IH. reflexivity.
Qed.

Lemma seq_eqb_refl l :
  Forall (fun x => py_eq x x = true) l -> seq_eqb l l = true.
Proof.
  induction 1 as [|x l Hx _ IH]; [reflexivity|].
  cbn. rewrite Hx, IH. reflexivity.
Qed.

Lemma seq_eqb_sym xs :
  Forall (fun x => forall y, py_eq x y = py_eq y x) xs ->
  forall ys, seq_eqb xs ys = seq_eqb ys xs.
Proof.
  induction 1 as [|x xs Hx _ IH]; intros [|y ys]; try reflexivity.
  cbn. rewrite Hx, IH. reflexivity.
Qed.

Lemma seq_eqb_trans xs :
  Forall (fun x => forall y z,
            py_eq x y = true -> py_eq y z = true -> py_eq x z = true) xs ->
  forall ys zs,
    seq_eqb xs ys = true -> seq_eqb ys zs = true -> seq_eqb xs zs = true.
Proof.
  induction 1 as [|x xs Hx _ IH]; intros [|y ys] [|z zs]; cbn; try congruence.
  rewrite !andb_true_iff. intros [Hxy Hxs] [Hyz Hys]. eauto.
Qed.

Lemma pair_eqb_in_refl (d : list (pyval * pyval)) :
  Forall (fun kv => py_eq (fst kv) (fst kv) = true
                    /\ py_eq (snd kv) (snd kv) = true) d ->
  forallb (fun kv => existsb (fun kv' => pair_eqb kv kv') d) d = true.
Proof.
  intros H. apply forallb_forall. intros kv Hin.
  apply existsb_exists. exists kv. split; [assumption|].
  rewrite List.Forall_forall in H. destruct (H kv Hin) as [Hk Hv].
  unfold pair_eqb. rewrite Hk, Hv. reflexivity.
Qed.

Theorem py_eq_refl x : py_eq x x = true.
Proof.
  induction x as [ | z | s | l IH | i l IH | i d IH | i ] using pyval_ind.
  - reflexivity.
  - apply Z.eqb_refl.
  - apply String.eqb_refl.
  - rewrite py_eq_tuple. apply seq_eqb_refl, IH.
  - rewrite py_eq_list. apply seq_eqb_refl, IH.
  - rewrite py_eq_dict. unfold entries_eqb.
    rewrite Nat.eqb_refl, pair_eqb_in_refl by exact IH. cbn.
    apply forallb_forall. intros kv Hin. apply existsb_exists.
    exists kv. split; [assumption|].
    rewrite List.Forall_forall in IH. destruct (IH kv Hin) as [Hk Hv].
    unfold pair_eqb. rewrite Hk, Hv. reflexivity.
  - cbn. apply Nat.eqb_refl.
Qed.

Lemma entries_eqb_sym d :
  Forall (fun kv => (forall y, py_eq (fst kv) y = py_eq y (fst kv))
                    /\ (forall y, py_eq (snd kv) y = py_eq y (snd kv))) d ->
  forall e, entries_eqb d e = entries_eqb e d.
Proof.
  intros H e. rewrite List.Forall_forall in H.
  assert (Hp : forall kv kv', In kv d -> pair_eqb kv kv' = pair_eqb kv' kv).
  { intros kv kv' Hin. destruct (H kv Hin) as [Hk Hv].
    unfold pair_eqb. rewrite Hk, Hv. reflexivity. }
  unfold entries_eqb. rewrite (Nat.eqb_sym (length d)).
  rewrite <- !andb_assoc. f_equal. rewrite andb_comm. f_equal.
  - apply eq_true_iff_eq. rewrite !forallb_forall.
    split; intros He kv' Hin'; specialize (He kv' Hin');
      rewrite existsb_exists in *; destruct He as (kv & Hin & Heq);
      exists kv; split; try assumption.
    + rewrite <- Hp; assumption.
    + rewrite Hp; assumption.
  - apply eq_true_iff_eq. rewrite !forallb_forall.
    split; intros Hd kv Hin; specialize (Hd kv Hin);
      rewrite existsb_exists in *; destruct Hd as (kv' & Hin' & Heq);
      exists kv'; split; try assumption.
    + rewrite <- Hp; assumption.
    + rewrite Hp; assumption.
Qed.

Theorem py_eq_sym x : forall y, py_eq x y = py_eq y x.
Proof.
  induction x as [ | z | s | l IH | i l IH | i d IH | i ] using pyval_ind;
    intros [ | z' | s' | l' | i' l' | i' d' | i' ]; try reflexivity.
  - apply Z.eqb_sym.
  - apply String.eqb_sym.
  - rewrite !py_eq_tuple. apply seq_eqb_sym, IH.
  - rewrite !py_eq_list. apply seq_eqb_sym, IH.
  - rewrite !py_eq_dict. apply entries_eqb_sym, IH.
  - cbn. apply Nat.eqb_sym.
Qed.

Lemma entries_eqb_trans d :
  Forall (fun kv =>
            (forall y z, py_eq (fst kv) y = true -> py_eq y z = true ->
                         py_eq (fst kv) z = true)
            /\ (forall y z, py_eq (snd kv) y = true -> py_eq y z = true ->
                            py_eq (snd kv) z = true)) d ->
  forall e f,
    entries_eqb d e = true -> entries_eqb e f = true -> entries_eqb d f = true.
Proof.
  intros H e f. rewrite List.Forall_forall in H.
  assert (Hp : forall kv kv' kv'', In kv d ->
            pair_eqb kv kv' = true -> pair_eqb kv' kv'' = true ->
            pair_eqb kv kv'' = true).
  { intros kv kv' kv'' Hin. destruct (H kv Hin) as [Hk Hv].
    unfold pair_eqb. rewrite !andb_true_iff.
    intros [? ?] [? ?]. split; eauto. }
  unfold entries_eqb. rewrite !andb_true_iff, !Nat.eqb_eq, !forallb_forall.
  intros [[Hlen Hde] Hed] [[Hlen' Hef] Hfe].
  split; [split; [congruence|]|].
  - intros kv Hin. destruct (proj1 (existsb_exists _ _) (Hde kv Hin))
      as (kv' & Hin' & Heq).
    destruct (proj1 (existsb_exists _ _) (Hef kv' Hin'))
      as (kv'' & Hin'' & Heq').
    apply existsb_exists. exists kv''. split; eauto.
  - intros kv'' Hin''. destruct (proj1 (existsb_exists _ _) (Hfe kv'' Hin''))
      as (kv' & Hin' & Heq').
    destruct (proj1 (existsb_exists _ _) (Hed kv' Hin'))
      as (kv & Hin & Heq).
    apply existsb_exists. exists kv. split; eauto.
Qed.

Theorem py_eq_trans x :
  forall y z, py_eq x y = true -> py_eq y z = true -> py_eq x z = true.
Proof.
  induction x as [ | a | s | l IH | i l IH | i d IH | i ] using pyval_ind;
    intros [ | a' | s' | l' | i' l' | i' d' | i' ]
           [ | a'' | s'' | l'' | i'' l'' | i'' d'' | i'' ];
    try (cbn; congruence).
  - cbn. rewrite !Z.eqb_eq. congruence.
  - cbn. rewrite !String.eqb_eq. congruence.
  - rewrite !py_eq_tuple. apply seq_eqb_trans, IH.
  - rewrite !py_eq_list. apply seq_eqb_trans, IH.
  - rewrite !py_eq_dict. apply entries_eqb_trans, IH.
  - cbn. rewrite !Nat.eqb_eq. congruence.
Qed.

(** Only the object itself equals a bare object. *)
Lemma py_eq_obj x i : py_eq x (PObj i) = true -> x = PObj i.
Proof.
  destruct x; cbn; try discriminate.
  rewrite Nat.eqb_eq. congruence.
Qed.

(** ** Concat *)

Lemma Concat_drain handler q :
  Concat.drain handler q = flat_map handler (map Item q).
Proof.
  induction q as [|d q IH]; [reflexivity|].
  cbn. rewrite IH. reflexivity.
Qed.

Lemma Concat_dispatches handler queues :
  Concat.handle_stream handler queues
  = flat_map handler (map Item (concat queues) ++ [END]).
Proof.
  induction queues as [|q queues IH]; cbn.
  - symmetry. apply app_nil_r.
  - rewrite IH, Concat_drain, map_app, <- app_assoc, !flat_map_app.
    reflexivity.
Qed.

Lemma flat_map_forward (l : list msg) : flat_map forward l = l.
Proof. induction l as [|m l IH]; [reflexivity|]. cbn. rewrite IH. reflexivity. Qed.

Lemma filter_is_END_items (l : list pyval) :
  List.filter is_END (map Item l) = [].
Proof. induction l as [|d l IH]; [reflexivity|]. cbn. exact IH. Qed.

(** C6 - Concat forwards the items of source 0, then those of source 1, and
    so on in the declared order of the sources, and then one END: the
    dispatches to the handler are the items of the sources in that order
    followed by END, whatever the handler; with the forwarding handler the
    output is the concatenation of the sources followed by exactly one END;
    Concat(A=[1,2], B=[3,4]) yields 1,2,3,4 and then END. *)
Theorem Concat_order_and_completion :
  (forall handler queues,
     Concat.handle_stream handler queues
     = flat_map handler (map Item (concat queues) ++ [END]))
  /\ (forall queues,
        Concat.handle_stream forward queues
        = map Item (concat queues) ++ [END])
  /\ (forall queues,
        List.filter is_END (Concat.handle_stream forward queues) = [END])
  /\ Concat.handle_stream forward [[PInt 1; PInt 2]; [PInt 3; PInt 4]]
     = [Item (PInt 1); Item (PInt 2); Item (PInt 3); Item (PInt 4); END].
Proof.
  assert (H : forall queues,
             Concat.handle_stream forward queues
             = map Item (concat queues) ++ [END]).
  { intros queues. rewrite Concat_dispatches. apply flat_map_forward. }
  split; [exact Concat_dispatches|]. split; [exact H|]. split.
  - intros queues. rewrite H, List.filter_app, filter_is_END_items.
    reflexivity.
  - reflexivity.
Qed.

(** ** Distinct *)

Lemma Filter_handle_stream_cons {S} handler (by_ : Filter.by_arg S) self d
  rest h :
  Filter.handle_stream handler by_ self (d :: rest) h
  = match Filter.keep by_ self d h with
    | Raise e => ([], Raise e)
    | Ok (k, self', h') =>
        let '(out, r) := Filter.handle_stream handler by_ self' rest h' in
        ((if k then handler (Item d) else []) ++ out, r)
    end.
Proof. reflexivity. Qed.

Lemma Distinct_filter_run self d h :
  Distinct.filter self d h
  = if py_eq d (Distinct.prev self) then Ok (false, self, h)
    else Ok (true, {| Distinct.prev := d |}, h).
Proof. unfold Distinct.filter. destruct (py_eq _ _); reflexivity. Qed.

Lemma Distinct_after (items : list pyval) :
  forall (self : Distinct.state) (p : pyval) (h : heap),
    py_eq p (Distinct.prev self) = true ->
    exists self',
      Distinct.handle_stream forward self items h
      = (map Item (drop_repeats (Some p) items) ++ [END], Ok (self', h)).
Proof.
  unfold Distinct.handle_stream.
  induction items as [|d rest IH]; intros self p h Hp.
  - exists self. reflexivity.
  - rewrite Filter_handle_stream_cons. cbn [Filter.keep drop_repeats].
    rewrite Distinct_filter_run.
    assert (Heq : py_eq d (Distinct.prev self) = py_eq d p).
    { apply eq_true_iff_eq. split; intros H.
      - apply py_eq_trans with (Distinct.prev self); [exact H|].
        rewrite py_eq_sym. exact Hp.
      - apply py_eq_trans with p; assumption. }
    rewrite <- Heq.
    destruct (py_eq d (Distinct.prev self)) eqn:Hd.
    + destruct (IH self d h Hd) as [self' E]. exists self'.
      rewrite E. reflexivity.
    + destruct (IH {| Distinct.prev := d |} d h (py_eq_refl d))
        as [self' E].
      exists self'. rewrite E. reflexivity.
Qed.

(** C7 - Distinct collapses consecutive runs only: on every input stream
    whose first item is not the private [object()] the stage was built
    with, Distinct forwards exactly the items that differ from the item
    just before them on the input, the first item included, and then END. *)
Theorem Distinct_collapses_runs (items : list pyval) (h : heap)
  (self : Distinct.state) (h0 : heap) :
  Distinct.init h = Ok (self, h0) ->
  (forall d, head items = Some d -> d <> Distinct.prev self) ->
  exists self',
    Distinct.handle_stream forward self items h0
    = (map Item (drop_repeats None items) ++ [END], Ok (self', h0)).
Proof.
  intros Hinit Hfresh. cbv in Hinit. injection Hinit as <- <-.
  destruct items as [|d rest].
  - eexists. reflexivity.
  - unfold Distinct.handle_stream.
    rewrite Filter_handle_stream_cons. cbn [Filter.keep drop_repeats].
    rewrite Distinct_filter_run.
    destruct (py_eq d _) eqn:Hd.
    + apply py_eq_obj in Hd. exfalso. apply (Hfresh d); [reflexivity|exact Hd].
    + destruct (Distinct_after rest {| Distinct.prev := d |} d (S h)
                  (py_eq_refl d)) as [self' E].
      exists self'. unfold Distinct.handle_stream in E. rewrite E.
      reflexivity.
Qed.

(** Distinct on [1,1,2,2,1] and on [1,1,2,1,3,2], for a stage built when
    three objects exist. *)
Lemma Distinct_collapses_runs_witness :
  (exists self',
     Distinct.handle_stream forward {| Distinct.prev := PObj 3 |}
       [PInt 1; PInt 1; PInt 2; PInt 2; PInt 1] 4%nat
     = ([Item (PInt 1); Item (PInt 2); Item (PInt 1); END],
        Ok (self', 4%nat)))
  /\ (exists self',
        Distinct.handle_stream forward {| Distinct.prev := PObj 3 |}
          [PInt 1; PInt 1; PInt 2; PInt 1; PInt 3; PInt 2] 4%nat
        = ([Item (PInt 1); Item (PInt 2); Item (PInt 1); Item (PInt 3);
            Item (PInt 2); END],
           Ok (self', 4%nat))).
Proof.
  split.
  - apply (Distinct_collapses_runs
             [PInt 1; PInt 1; PInt 2; PInt 2; PInt 1] 3%nat).
    + reflexivity.
    + intros d Hd. injection Hd as <-. discriminate.
  - apply (Distinct_collapses_runs
             [PInt 1; PInt 1; PInt 2; PInt 1; PInt 3; PInt 2] 3%nat).
    + reflexivity.
    + intros d Hd. injection Hd as <-. discriminate.
Defined.

(** ** Sample *)

Lemma NoDup_insert_fresh {A} (l : list A) (i : nat) (x : A) :
  NoDup l -> x ∉ l -> NoDup (<[i := x]> l).
Proof.
  intros Hnd Hx. apply NoDup_alt. intros a b y Ha Hb.
  apply list_lookup_insert_Some in Ha, Hb.
  destruct Ha as [(-> & -> & _)|[Hne Ha]], Hb as [(<- & Hxy & _)|[Hne' Hb]].
  - reflexivity.
  - exfalso. apply Hx. eapply list_elem_of_lookup_2. exact Hb.
  - subst y. exfalso. apply Hx. eapply list_elem_of_lookup_2. exact Ha.
  - eapply NoDup_alt; eassumption.
Qed.

Section Sample_properties.
Variable randint : Z -> Z -> Z.
Variable k : Z.
Hypothesis Hk : 1 <= k.
Hypothesis Hdraw : forall cur, k <= cur -> 0 <= randint 0 cur <= cur.

Lemma reservoir_step_length res i d :
  0 <= i -> length res = Z.to_nat (Z.min k i) ->
  length (reservoir_step k (randint 0) res i d) = Z.to_nat (Z.min k (i + 1)).
Proof.
  intros Hi Hlen. unfold reservoir_step.
  destruct (i <? k) eqn:Hik.
  - apply Z.ltb_lt in Hik. rewrite length_app, Hlen. cbn. lia.
  - apply Z.ltb_ge in Hik.
    destruct (randint 0 i <? k); rewrite ?length_insert, Hlen; lia.
Qed.

(** The loop of [handle_stream] never raises, counts the items, and
    computes the reservoir of the spec. *)
Lemma Sample_fill_run items :
  forall res cur,
    0 <= cur -> length res = Z.to_nat (Z.min k cur) ->
    Sample.fill randint k res cur items
    = Ok (reservoir_run k (randint 0) res cur items,
          cur + Z.of_nat (length items)).
Proof.
  induction items as [|d rest IH]; intros res cur Hcur Hlen.
  - cbn. rewrite Z.add_0_r. reflexivity.
  - assert (Hstep := reservoir_step_length res cur d Hcur Hlen).
    cbn [Sample.fill reservoir_run]. unfold reservoir_step in *.
    destruct (cur <? k) eqn:Hck.
    + rewrite IH by (assumption || lia). f_equal. f_equal.
      rewrite length_cons. lia.
    + apply Z.ltb_ge in Hck. destruct (Hdraw cur Hck) as [Hlo Hhi].
      destruct (randint 0 cur <? k) eqn:Hrk.
      * apply Z.ltb_lt in Hrk. unfold Sample.setitem, py_index.
        rewrite Hlen.
        replace (randint 0 cur <? 0) with false by (symmetry; apply Z.ltb_ge; lia).
        replace (0 <=? randint 0 cur) with true by (symmetry; apply Z.leb_le; lia).
        replace (randint 0 cur <? Z.of_nat (Z.to_nat (Z.min k cur)))
          with true by (symmetry; apply Z.ltb_lt; lia).
        cbn [andb]. rewrite IH by (assumption || lia). f_equal. f_equal.
        rewrite length_cons. lia.
      * rewrite IH by (assumption || lia). f_equal. f_equal.
        rewrite length_cons. lia.
Qed.

(** The reservoir holds items of the stream, from distinct positions. *)
Lemma reservoir_run_picks (all : list pyval) rest :
  forall seen res picked,
    all = seen ++ rest ->
    length res = Z.to_nat (Z.min k (Z.of_nat (length seen))) ->
    NoDup picked ->
    Forall2 (fun j d => all !! j = Some d) picked res ->
    Forall (fun j => (j < length seen)%nat) picked ->
    exists picked',
      NoDup picked'
      /\ Forall2 (fun j d => all !! j = Some d) picked'
           (reservoir_run k (randint 0) res (Z.of_nat (length seen)) rest)
      /\ length (reservoir_run k (randint 0) res (Z.of_nat (length seen)) rest)
         = Z.to_nat (Z.min k (Z.of_nat (length all))).
Proof.
  induction rest as [|d rest IH]; intros seen res picked Hall Hlen Hnd Hpk Hlt.
  - exists picked. rewrite app_nil_r in Hall. subst all. auto.
  - cbn [reservoir_run].
    assert (Hlen' := reservoir_step_length res _ d (Nat2Z.is_nonneg _) Hlen).
    assert (Hd : all !! length seen = Some d)
      by (subst all; apply list_lookup_middle; reflexivity).
    assert (Hfresh : length seen ∉ picked).
    { intros Hin. rewrite Forall_forall in Hlt. specialize (Hlt _ Hin). lia. }
    assert (Hlt' : Forall (fun j => (j < length (seen ++ [d]))%nat) picked).
    { eapply Forall_impl; [exact Hlt|]. cbn. intros j Hj.
      rewrite length_app. cbn. lia. }
    assert (Hnext : Z.of_nat (length seen) + 1
                    = Z.of_nat (length (seen ++ [d])))
      by (rewrite length_app; cbn; lia).
    assert (Hhere : (length seen < length (seen ++ [d]))%nat)
      by (rewrite length_app; cbn; lia).
    rewrite Hnext in *.
    assert (Hall' : all = (seen ++ [d]) ++ rest)
      by (rewrite <- app_assoc; exact Hall).
    unfold reservoir_step in *.
    destruct (Z.of_nat (length seen) <? k).
    + apply (IH (seen ++ [d]) _ (picked ++ [length seen])); auto.
      * apply NoDup_app. split; [exact Hnd|]. split; [|apply NoDup_singleton].
        intros j Hj Hj'. apply list_elem_of_singleton in Hj'. subst j.
        exact (Hfresh Hj).
      * apply Forall2_app; [exact Hpk|]. repeat constructor. exact Hd.
      * apply Forall_app. split; [exact Hlt'|]. repeat constructor.
        exact Hhere.
    + destruct (randint 0 (Z.of_nat (length seen)) <? k).
      * apply (IH (seen ++ [d]) _
                 (<[Z.to_nat (randint 0 (Z.of_nat (length seen)))
                    := length seen]> picked)); auto.
        -- apply NoDup_insert_fresh; assumption.
        -- apply Forall2_insert; assumption.
        -- apply Forall_insert; assumption.
      * apply (IH (seen ++ [d]) _ picked); auto.
Qed.
End Sample_properties.

Lemma flat_map_forward_items (l : list pyval) :
  flat_map (fun data => forward (Item data)) l = map Item l.
Proof. induction l as [|d l IH]; [reflexivity|]. cbn. rewrite IH. reflexivity. Qed.

(** C5 - Sample(k), the draws being an input: on every stream of n items
    Sample never raises and emits min(k,n) items followed by one END; the
    emitted items are items of the stream, taken from distinct positions;
    the reservoir emitted is the one of the spec's algorithm (item i is
    stored while i<k; for i>=k the draw r in [0,i] replaces slot r iff
    r<k). *)
Theorem Sample_reservoir (randint : Z -> Z -> Z) (k : Z)
  (items : list pyval) (self : Sample.state) :
  Sample.init k = Ok self ->
  (forall cur, k <= cur -> 0 <= randint 0 cur <= cur) ->
  exists res picked,
    Sample.handle_stream forward randint self items
    = Ok ({| Sample.num := k; Sample.reservoir := res |},
          map Item res ++ [END])
    /\ res = reservoir_run k (randint 0) [] 0 items
    /\ length res = Nat.min (Z.to_nat k) (length items)
    /\ NoDup picked
    /\ Forall2 (fun j d => items !! j = Some d) picked res.
Proof.
  intros Hinit Hdraw. unfold Sample.init in Hinit.
  destruct (1 <=? k) eqn:Hk; [|discriminate].
  apply Z.leb_le in Hk. injection Hinit as <-.
  destruct (reservoir_run_picks randint k Hk items items [] [] [])
    as (picked & Hnd & Hpk & Hlen);
    [reflexivity | cbn; lia | constructor | constructor | constructor |].
  change (Z.of_nat (length (@nil pyval))) with 0 in Hpk, Hlen.
  exists (reservoir_run k (randint 0) [] 0 items), picked.
  split; [|split; [reflexivity|split; [lia|split; assumption]]].
  unfold Sample.handle_stream. cbn [Sample.num Sample.reservoir].
  rewrite (Sample_fill_run randint k Hk Hdraw) by (cbn; lia).
  unfold Sample.slice_to.
  replace (0 + Z.of_nat (length items) <? 0) with false
    by (symmetry; apply Z.ltb_ge; lia).
  rewrite take_ge by lia.
  rewrite flat_map_forward_items. reflexivity.
Qed.

(** Sample(2) on five items, the draws being 0, 1 and 2. *)
Lemma Sample_reservoir_witness :
  exists res picked,
    Sample.handle_stream forward (fun _ cur => cur - 2)
      {| Sample.num := 2; Sample.reservoir := [] |}
      [PInt 10; PInt 11; PInt 12; PInt 13; PInt 14]
    = Ok ({| Sample.num := 2; Sample.reservoir := res |},
          map Item res ++ [END])
    /\ res = reservoir_run 2 (fun cur => cur - 2) [] 0
               [PInt 10; PInt 11; PInt 12; PInt 13; PInt 14]
    /\ length res = Nat.min (Z.to_nat 2) 5
    /\ NoDup picked
    /\ Forall2 (fun j d =>
                  [PInt 10; PInt 11; PInt 12; PInt 13; PInt 14] !! j = Some d)
         picked res.
Proof.
  apply (Sample_reservoir (fun _ cur => cur - 2) 2
           [PInt 10; PInt 11; PInt 12; PInt 13; PInt 14]).
  - reflexivity.
  - intros cur Hcur. lia.
Defined.

(** ** GetItem *)

Lemma bind_Ok {A B} (c : Py A) (k : A -> Py B) h a h' :
  c h = Ok (a, h') -> (x ← c; k x) h = k a h'.
Proof. intros H. unfold mbind, Py_bind, bind. rewrite H. reflexivity. Qed.

Lemma bind_Raise {A B} (c : Py A) (k : A -> Py B) h e :
  c h = Raise e -> (x ← c; k x) h = Raise e.
Proof. intros H. unfold mbind, Py_bind, bind. rewrite H. reflexivity. Qed.

Lemma deepcopy_tuple l :
  deepcopy (PTuple l) = (ys ← copy_items l; ret (PTuple ys)).
Proof. reflexivity. Qed.

Lemma deepcopy_list i l :
  deepcopy (PList i l) = (j ← alloc; ys ← copy_items l; ret (PList j ys)).
Proof. reflexivity. Qed.

Lemma deepcopy_dict i d :
  deepcopy (PDict i d) = (j ← alloc; es ← copy_entries d; ret (PDict j es)).
Proof. reflexivity. Qed.

Lemma between_mono (l : list nat) (a b a' b' : nat) :
  (a' <= a)%nat -> (b <= b')%nat ->
  Forall (fun i => (a <= i < b)%nat) l ->
  Forall (fun i => (a' <= i < b')%nat) l.
Proof. intros Ha Hb H. eapply Forall_impl; [exact H|]. intros i Hi. cbn in Hi. lia. Qed.

Lemma copy_items_fresh l :
  Forall copies l ->
  forall h, exists ys h',
    copy_items l h = Ok (ys, h')
    /\ map erase ys = map erase l
    /\ (h <= h')%nat
    /\ Forall (fun i => (h <= i < h')%nat) (flat_map ids ys).
Proof.
  induction 1 as [|x l Hx _ IH]; intros h.
  - exists [], h. repeat split; [lia | constructor].
  - destruct (Hx h) as (y & h1 & Ey & Hy1 & Hy2 & Hy3).
    destruct (IH h1) as (ys & h2 & Eys & Hys1 & Hys2 & Hys3).
    exists (y :: ys), h2. cbn [copy_items].
    rewrite (bind_Ok _ _ _ _ _ Ey), (bind_Ok _ _ _ _ _ Eys).
    split; [reflexivity|]. cbn. rewrite Hy1, Hys1.
    split; [reflexivity|]. split; [lia|].
    apply Forall_app. split.
    + eapply between_mono; [| |exact Hy3]; lia.
    + eapply between_mono; [| |exact Hys3]; lia.
Qed.

Lemma copy_entries_fresh d :
  Forall (fun kv => copies (fst kv) /\ copies (snd kv)) d ->
  forall h, exists es h',
    copy_entries d h = Ok (es, h')
    /\ map (fun kv => (erase (fst kv), erase (snd kv))) es
       = map (fun kv => (erase (fst kv), erase (snd kv))) d
    /\ (h <= h')%nat
    /\ Forall (fun i => (h <= i < h')%nat)
         (flat_map (fun kv => ids (fst kv) ++ ids (snd kv)) es).
Proof.
  induction 1 as [|[k v] d [Hk Hv] _ IH]; intros h.
  - exists [], h. repeat split; [lia | constructor].
  - cbn [fst snd] in Hk, Hv.
    destruct (Hk h) as (k' & h1 & Ek & Hk1 & Hk2 & Hk3).
    destruct (Hv h1) as (v' & h2 & Ev & Hv1 & Hv2 & Hv3).
    destruct (IH h2) as (es & h3 & Ees & Hes1 & Hes2 & Hes3).
    exists ((k', v') :: es), h3. cbn [copy_entries].
    rewrite (bind_Ok _ _ _ _ _ Ek), (bind_Ok _ _ _ _ _ Ev),
      (bind_Ok _ _ _ _ _ Ees).
    split; [reflexivity|]. cbn. rewrite Hk1, Hv1, Hes1.
    split; [reflexivity|]. split; [lia|].
    rewrite !Forall_app. repeat split.
    + eapply between_mono; [| |exact Hk3]; lia.
    + eapply between_mono; [| |exact Hv3]; lia.
    + eapply between_mono; [| |exact Hes3]; lia.
Qed.

(** [deepcopy] never raises; the copy has the value of the original and is
    made of new objects only. *)
Lemma deepcopy_fresh x : copies x.
Proof.
  induction x as [ | z | s | l IH | i l IH | i d IH | i ] using pyval_ind;
    intros h.
  - exists PNone, h. repeat split; [lia | constructor].
  - exists (PInt z), h. repeat split; [lia | constructor].
  - exists (PStr s), h. repeat split; [lia | constructor].
  - destruct (copy_items_fresh l IH h) as (ys & h' & E & H1 & H2 & H3).
    exists (PTuple ys), h'. rewrite deepcopy_tuple, (bind_Ok _ _ _ _ _ E).
    repeat split; [cbn; congruence | lia | exact H3].
  - destruct (copy_items_fresh l IH (S h)) as (ys & h' & E & H1 & H2 & H3).
    exists (PList h ys), h'.
    rewrite deepcopy_list, (bind_Ok _ _ h h (S h) eq_refl),
      (bind_Ok _ _ _ _ _ E).
    repeat split; [cbn; congruence | lia |].
    cbn. constructor; [lia|]. eapply between_mono; [| |exact H3]; lia.
  - destruct (copy_entries_fresh d IH (S h)) as (es & h' & E & H1 & H2 & H3).
    exists (PDict h es), h'.
    rewrite deepcopy_dict, (bind_Ok _ _ h h (S h) eq_refl),
      (bind_Ok _ _ _ _ _ E).
    repeat split; [cbn; congruence | lia |].
    cbn. constructor; [lia|]. eapply between_mono; [| |exact H3]; lia.
  - exists (PObj h), (S h). repeat split; [lia|].
    cbn. constructor; [lia|constructor].
Qed.

(** A failed [obj[key]] fails with one of the three lookup errors. *)
Lemma py_getitem_raises obj key e :
  py_getitem obj key = Raise e -> GetItem.caught e = true.
Proof.
  unfold py_getitem. intros H.
  repeat match type of H with
         | Ok _ = Raise _ => discriminate H
         | Raise _ = Raise _ => injection H as <-; reflexivity
         | context [match ?t with _ => _ end] => destruct t
         | context [if ?t then _ else _] => destruct t
         end.
Qed.

(** C8 - GetItem error recovery: END is passed on as it is; for a real
    item whose lookup succeeds the stage emits [item[key]]; when the lookup
    fails (always with TypeError, KeyError or IndexError) the stage does
    not raise and emits a deep copy of the default: a value equal to the
    default up to object identities and made only of objects created by
    this activation. *)
Theorem GetItem_recovers (key default : pyval) (h : heap) :
  let self := GetItem.init key default in
  GetItem.handle self END h = Ok (self, [END], RetOfPut, h)
  /\ (forall data v,
        py_getitem data key = Ok v ->
        GetItem.handle self (Item data) h = Ok (self, [Item v], RetNone, h))
  /\ (forall data e,
        py_getitem data key = Raise e ->
        (e = TypeError \/ e = KeyError \/ e = IndexError)
        /\ exists d h',
             GetItem.handle self (Item data) h
             = Ok (self, [Item d], RetNone, h')
             /\ erase d = erase default
             /\ Forall (fun i => (h <= i < h')%nat) (ids d)).
Proof.
  intros self. split; [reflexivity|]. split.
  - intros data v Hv. unfold GetItem.handle. cbn [GetItem.key self GetItem.init].
    rewrite Hv. reflexivity.
  - intros data e He. pose proof (py_getitem_raises _ _ _ He) as Hc. split.
    + destruct e; cbn in Hc; try discriminate; auto.
    + destruct (deepcopy_fresh default h) as (d & h' & E & H1 & _ & H3).
      exists d, h'. split; [|split; assumption].
      unfold GetItem.handle. cbn [GetItem.key GetItem.default self GetItem.init].
      rewrite He, Hc, (bind_Ok _ _ _ _ _ E). reflexivity.
Qed.

(** [GetItem(key=5, default=[object()])] on the item [[1]], when ten
    objects exist: the default is copied into the objects 10 and 11. *)
Lemma GetItem_recovers_witness :
  py_getitem (PList 4 [PInt 1]) (PInt 5) = Raise IndexError
  /\ exists d h',
       GetItem.handle (GetItem.init (PInt 5) (PList 3 [PObj 2]))
         (Item (PList 4 [PInt 1])) 10%nat
       = Ok (GetItem.init (PInt 5) (PList 3 [PObj 2]), [Item d], RetNone, h')
       /\ erase d = erase (PList 3 [PObj 2])
       /\ Forall (fun i => (10 <= i < h')%nat) (ids d).
Proof.
  split; [reflexivity|].
  exact (proj2 (proj2 (proj2 (GetItem_recovers (PInt 5) (PList 3 [PObj 2])
                                 10%nat))
                  (PList 4 [PInt 1]) IndexError eq_refl)).
Defined.

(** ** Mix *)

Lemma Mix_pump_forward data : Mix.pump forward data = map Item data.
Proof.
  induction data as [|d rest IH]; [reflexivity|].
  cbn [Mix.pump map]. rewrite IH. reflexivity.
Qed.

Lemma Mix_first_exception done :
  Exists (fun t : nat * option exn => snd t <> None) done ->
  exists before i e after,
    done = before ++ (i, Some e) :: after
    /\ Forall (fun t : nat * option exn => snd t = None) before
    /\ Mix.first_exception done = Some e.
Proof.
  induction done as [|[i [e|]] rest IH]; intros H.
  - inversion H.
  - exists [], i, e, rest. repeat split. constructor.
  - inversion H as [? ? Hx|? ? Hrest]; subst; [contradiction|].
    destruct (IH Hrest) as (before & j & e & after & -> & Hb & Hf).
    exists ((i, None) :: before), j, e, after. repeat split.
    + constructor; [reflexivity|exact Hb].
    + exact Hf.
Qed.

Lemma Mix_no_exception done :
  Forall (fun t : nat * option exn => snd t = None) done ->
  Mix.first_exception done = None
  /\ ~ Exists (fun t : nat * option exn => snd t <> None) done.
Proof.
  induction 1 as [|[i o] rest Hx _ [IH1 IH2]]; cbn in *.
  - split; [reflexivity|]. intros H. inversion H.
  - subst o. split; [exact IH1|]. intros H.
    inversion H as [? ? Hy|? ? Hy]; subst; [apply Hy; reflexivity|].
    exact (IH2 Hy).
Qed.

(** A failing Mix does not cancel the remaining drainers: of two sources,
    when the drainer of the first has raised and the one of the second is
    still running, Mix raises and leaves the second running. *)
Lemma Mix_leaves_pending_counterexample : ~ Mix_cancels_the_rest.
Proof.
  intros H.
  assert (Hrun : Mix.running
                   (Mix.handle_stream forward
                      [{| Mix.ch_is_constant := false |};
                       {| Mix.ch_is_constant := false |}]
                      {| Mix.done := [(0%nat, Some RuntimeError)];
                         Mix.pending := [1%nat];
                         Mix.pumped := [PInt 1] |})
                 = []).
  { apply H.
    - reflexivity.
    - split; [reflexivity|]. right. constructor. discriminate.
    - constructor. discriminate. }
  cbn in Hrun. discriminate Hrun.
Qed.

(** C1 - Mix failure semantics: for any number of sources without a
    constant channel and any answer of [asyncio.wait].  When a finished
    drainer has raised, Mix raises the exception of the first such drainer
    met in [done], whatever the exceptions of the finished drainers after
    it; the handler has been called on what the drainers dispatched and
    not on END, so that no END is written; and the drainers that were
    pending are left running: none is cancelled.  When no finished drainer
    has raised, all are finished and Mix dispatches END once, after the
    data. *)
Theorem Mix_failure (handler : msg -> list msg) (queues : list Mix.queue)
  (w : Mix.waited) :
  existsb Mix.ch_is_constant queues = false ->
  Mix_waited (length queues) w ->
  (Exists (fun t => snd t <> None) (Mix.done w) ->
   exists before i e after,
     Mix.done w = before ++ (i, Some e) :: after
     /\ Forall (fun t => snd t = None) before
     /\ Mix.handle_stream handler queues w
        = {| Mix.written := Mix.pump handler (Mix.pumped w);
             Mix.raised := Some e;
             Mix.running := Mix.pending w |}
     /\ Mix.written (Mix.handle_stream forward queues w)
        = map Item (Mix.pumped w)
     /\ ~ In END (Mix.written (Mix.handle_stream forward queues w)))
  /\ (Forall (fun t => snd t = None) (Mix.done w) ->
      Mix.handle_stream handler queues w
      = {| Mix.written := Mix.pump handler (Mix.pumped w) ++ handler END;
           Mix.raised := None;
           Mix.running := [] |}).
Proof.
  intros Hconst [_ Hwait]. unfold Mix.handle_stream. rewrite Hconst. split.
  - intros Hfail.
    destruct (Mix_first_exception _ Hfail)
      as (before & i & e & after & Hdone & Hb & Hf).
    exists before, i, e, after. rewrite Hf, Mix_pump_forward.
    repeat split; try assumption.
    cbn [Mix.written]. intros Hin. apply in_map_iff in Hin.
    destruct Hin as (d & Hd & _). discriminate Hd.
  - intros Hclean. destruct (Mix_no_exception _ Hclean) as [Hf Hnone].
    rewrite Hf.
    destruct Hwait as [-> | Hfail]; [reflexivity|contradiction].
Qed.

(** Three sources, the first of which has failed when [asyncio.wait]
    answers: Mix raises KeyError after the data 1 and 2, and the third
    drainer is left running. *)
Lemma Mix_failure_witness :
  exists before i e after,
    Mix.done Mix_first_failed = before ++ (i, Some e) :: after
    /\ Forall (fun t : nat * option exn => snd t = None) before
    /\ Mix.handle_stream forward Mix_three_queues Mix_first_failed
       = {| Mix.written := [Item (PInt 1); Item (PInt 2)];
            Mix.raised := Some e;
            Mix.running := [2%nat] |}
    /\ Mix.written (Mix.handle_stream forward Mix_three_queues
                      Mix_first_failed)
       = [Item (PInt 1); Item (PInt 2)]
    /\ ~ In END (Mix.written (Mix.handle_stream forward Mix_three_queues
                                Mix_first_failed)).
Proof.
  refine (proj1 (Mix_failure forward Mix_three_queues Mix_first_failed
                   eq_refl _) _).
  - split; [apply Permutation_swap|].
    right. apply Exists_cons_tl, Exists_cons_hd. discriminate.
  - apply Exists_cons_tl, Exists_cons_hd. discriminate.
Defined.

(** ** Reduce, Sum, Count *)

(** Count() on three items emits 3; Min(result=100) on 3, 1, 2 emits 1. *)
Example Count_example :
  fst (default_handle_stream Reduce.handle Count.init
         [PStr "a"; PStr "b"; PStr "c"] 1%nat)
  = [Item (PInt 3)].
Proof. reflexivity. Qed.

Example Min_example :
  fst (default_handle_stream Reduce.handle (Min.init (PInt 100))
         [PInt 3; PInt 1; PInt 2] 1%nat)
  = [Item (PInt 1)].
Proof. reflexivity. Qed.

Lemma Reduce_handle_item self d h r h' :
  Reduce.fn self (Reduce.result self) d h = Ok (r, h') ->
  Reduce.handle self (Item d) h
  = Ok ({| Reduce.fn := Reduce.fn self; Reduce.result := r;
           Reduce.prev_result := Reduce.result self |}, [], RetNone, h').
Proof. intros H. unfold Reduce.handle. rewrite (bind_Ok _ _ _ _ _ H). reflexivity. Qed.

Lemma Reduce_handle_item_raises self d h e :
  Reduce.fn self (Reduce.result self) d h = Raise e ->
  Reduce.handle self (Item d) h = Raise e.
Proof. intros H. unfold Reduce.handle. apply bind_Raise. exact H. Qed.

Lemma dispatch_all_cons {S} (handle : activation S) self m rest h :
  dispatch_all handle self (m :: rest) h
  = match handle self m h with
    | Raise e => ([], Raise e)
    | Ok (self', puts, _, h') =>
        let '(out, r) := dispatch_all handle self' rest h' in
        (puts ++ out, r)
    end.
Proof. reflexivity. Qed.

(** While items arrive a Reduce stage writes nothing; after them its
    accumulator is the fold of the items and [prev_result] the accumulator
    it held before the last item. *)
Lemma Reduce_items fn_ items :
  forall acc prev h acc' h',
    running_fold fn_ acc items h = Ok (acc', h') ->
    exists prev',
      dispatch_all Reduce.handle
        {| Reduce.fn := fn_; Reduce.result := acc; Reduce.prev_result := prev |}
        (map Item items) h
      = ([], Ok ({| Reduce.fn := fn_; Reduce.result := acc';
                    Reduce.prev_result := prev' |}, h'))
      /\ match items with
         | [] => prev' = prev
         | [_] => prev' = acc
         | _ => exists a b h1 h2, fn_ a b h1 = Ok (prev', h2)
         end.
Proof.
  induction items as [|d rest IH]; intros acc prev h acc' h' Hfold.
  - cbn in Hfold. injection Hfold as <- <-. exists prev. split; reflexivity.
  - cbn [running_fold] in Hfold.
    destruct (fn_ acc d h) as [[r h1]|e] eqn:Hfn;
      [rewrite (bind_Ok _ _ _ _ _ Hfn) in Hfold
      |rewrite (bind_Raise _ _ _ _ Hfn) in Hfold; discriminate].
    destruct (IH r acc h1 acc' h' Hfold) as (prev' & E & Hprev).
    exists prev'. cbn [map]. rewrite dispatch_all_cons.
    rewrite (Reduce_handle_item
               {| Reduce.fn := fn_; Reduce.result := acc;
                  Reduce.prev_result := prev |} d h r h1 Hfn).
    cbn [Reduce.fn Reduce.result]. rewrite E. split; [reflexivity|].
    destruct rest as [|d' rest'].
    + exact Hprev.
    + destruct rest' as [|d'' rest''].
      * subst prev'. eauto.
      * exact Hprev.
Qed.

Lemma dispatch_all_app {S} (handle : activation S) l1 :
  forall self h l2,
    dispatch_all handle self (l1 ++ l2) h
    = match dispatch_all handle self l1 h with
      | (out1, Ok (self1, h1)) =>
          let '(out2, r) := dispatch_all handle self1 l2 h1 in
          (out1 ++ out2, r)
      | (out1, Raise e) => (out1, Raise e)
      end.
Proof.
  induction l1 as [|m l1 IH]; intros self h l2.
  - cbn. destruct (dispatch_all handle self l2 h). reflexivity.
  - cbn [app]. rewrite !dispatch_all_cons.
    destruct (handle self m h) as [[[[self' puts] r] h']|e]; [|reflexivity].
    rewrite IH.
    destruct (dispatch_all handle self' l1 h') as [out1 [[self1 h1]|e]].
    + destruct (dispatch_all handle self1 l2 h1) as [out2 r2].
      rewrite app_assoc. reflexivity.
    + reflexivity.
Qed.

Lemma py_is_obj_true x i : py_is_obj x i = true <-> x = PObj i.
Proof.
  destruct x; cbn; try (split; [discriminate|congruence]).
  rewrite Nat.eqb_eq. split; congruence.
Qed.

Lemma py_is_obj_false x i : x <> PObj i -> py_is_obj x i = false.
Proof.
  intros H. destruct (py_is_obj x i) eqn:E; [|reflexivity].
  apply py_is_obj_true in E. contradiction.
Qed.

(** The folds of Count, Min and Max return set values. *)
Lemma Count_by_set a h r h' :
  py_add a (PInt 1) h = Ok (r, h') -> r <> Reduce.NOTSET.
Proof.
  destruct a; cbn; intros H; try discriminate.
  injection H as <- _. discriminate.
Qed.

Lemma py_lt_obj_l i b : py_lt (PObj i) b = Raise TypeError.
Proof. reflexivity. Qed.

Lemma py_lt_obj_r a i : py_lt a (PObj i) = Raise TypeError.
Proof. destruct a; reflexivity. Qed.

Lemma py_min_set a d h r h' : py_min a d h = Ok (r, h') -> r <> Reduce.NOTSET.
Proof.
  unfold py_min, mbind, Py_bind, bind, lift. intros H Hr.
  destruct (py_lt d a) as [less|e] eqn:E; [|discriminate].
  injection H as <- _.
  unfold Reduce.NOTSET in Hr.
  destruct less; subst; [rewrite py_lt_obj_l in E|rewrite py_lt_obj_r in E];
    discriminate.
Qed.

Lemma py_max_set a d h r h' : py_max a d h = Ok (r, h') -> r <> Reduce.NOTSET.
Proof.
  unfold py_max, mbind, Py_bind, bind, lift. intros H Hr.
  destruct (py_lt a d) as [greater|e] eqn:E; [|discriminate].
  injection H as <- _.
  unfold Reduce.NOTSET in Hr.
  destruct greater; subst; [rewrite py_lt_obj_r in E|rewrite py_lt_obj_l in E];
    discriminate.
Qed.

(** A Reduce stage that reads [before] and then [d]: it writes nothing,
    and holds in [prev_result] the accumulator it had before [d]. *)
Lemma Reduce_run fn_ before :
  forall init prev d h p h1 acc h',
    running_fold fn_ init before h = Ok (p, h1) ->
    fn_ p d h1 = Ok (acc, h') ->
    dispatch_all Reduce.handle
      {| Reduce.fn := fn_; Reduce.result := init; Reduce.prev_result := prev |}
      (map Item (before ++ [d])) h
    = ([], Ok ({| Reduce.fn := fn_; Reduce.result := acc;
                  Reduce.prev_result := p |}, h')).
Proof.
  induction before as [|x rest IH]; intros init prev d h p h1 acc h' Hfold Hfn.
  - cbn in Hfold. injection Hfold as <- <-. cbn [app map].
    rewrite dispatch_all_cons.
    rewrite (Reduce_handle_item
               {| Reduce.fn := fn_; Reduce.result := init;
                  Reduce.prev_result := prev |} d h acc h' Hfn).
    reflexivity.
  - cbn [running_fold] in Hfold.
    destruct (fn_ init x h) as [[r h2]|e] eqn:Hx;
      [rewrite (bind_Ok _ _ _ _ _ Hx) in Hfold
      |rewrite (bind_Raise _ _ _ _ Hx) in Hfold; discriminate].
    cbn [app map]. rewrite dispatch_all_cons.
    rewrite (Reduce_handle_item
               {| Reduce.fn := fn_; Reduce.result := init;
                  Reduce.prev_result := prev |} x h r h2 Hx).
    cbn [Reduce.fn Reduce.result].
    rewrite (IH r init d h2 p h1 acc h' Hfold Hfn). reflexivity.
Qed.

(** C4 - Reduce family, emission at END: the guard at END,
    [self.prev_result is not self.NOTSET], does not test whether an item
    was seen; it tests whether the accumulator held before the last item -
    or, when no item came, what [prev_result] held when the stage started -
    is the very object NOTSET.  For any stage and any stream on which the
    fold does not raise: on the empty stream the stage emits its initial
    accumulator unless its [prev_result] is the object NOTSET; on a stream
    ending with [d] it emits the folded accumulator unless the accumulator
    held before [d] is the object NOTSET.  So the instance a constructor
    builds with the unset default emits nothing after one item, although
    an item was seen; and a stage whose [prev_result] is any other object,
    as in a copy of the instance whose attributes are copied with it,
    emits its initial accumulator on the empty stream, although no item
    was seen. *)
Theorem Reduce_END_guard (self : Reduce.state) (h : heap) :
  default_handle_stream Reduce.handle self [] h
  = ((if py_is_obj (Reduce.prev_result self) Reduce.NOTSET_id then []
      else [Item (Reduce.result self)]),
     Ok ({| Reduce.fn := Reduce.fn self; Reduce.result := Reduce.NOTSET;
            Reduce.prev_result := Reduce.prev_result self |}, h))
  /\ (forall before d p h1 acc h',
        running_fold (Reduce.fn self) (Reduce.result self) before h
        = Ok (p, h1) ->
        Reduce.fn self p d h1 = Ok (acc, h') ->
        default_handle_stream Reduce.handle self (before ++ [d]) h
        = ((if py_is_obj p Reduce.NOTSET_id then [] else [Item acc]),
           Ok ({| Reduce.fn := Reduce.fn self;
                  Reduce.result := Reduce.NOTSET;
                  Reduce.prev_result := p |}, h')))
  /\ (forall d acc h',
        Reduce.result self = Reduce.NOTSET ->
        Reduce.fn self Reduce.NOTSET d h = Ok (acc, h') ->
        fst (default_handle_stream Reduce.handle self [d] h) = [])
  /\ (Reduce.prev_result self <> Reduce.NOTSET ->
      fst (default_handle_stream Reduce.handle self [] h)
      = [Item (Reduce.result self)]).
Proof.
  assert (Hrun : forall before d p h1 acc h',
             running_fold (Reduce.fn self) (Reduce.result self) before h
             = Ok (p, h1) ->
             Reduce.fn self p d h1 = Ok (acc, h') ->
             default_handle_stream Reduce.handle self (before ++ [d]) h
             = ((if py_is_obj p Reduce.NOTSET_id then [] else [Item acc]),
                Ok ({| Reduce.fn := Reduce.fn self;
                       Reduce.result := Reduce.NOTSET;
                       Reduce.prev_result := p |}, h'))).
  { intros before d p h1 acc h' Hfold Hfn. unfold default_handle_stream.
    rewrite dispatch_all_app. destruct self as [fn_ init prev].
    cbn [Reduce.fn Reduce.result] in *.
    rewrite (Reduce_run fn_ before init prev d h p h1 acc h' Hfold Hfn).
    cbn. destruct (py_is_obj p Reduce.NOTSET_id); reflexivity. }
  split; [|split; [exact Hrun|split]].
  - cbn. destruct (py_is_obj _ _); reflexivity.
  - intros d acc h' Hunset Hfn.
    assert (Hfold : running_fold (Reduce.fn self) (Reduce.result self) [] h
                    = Ok (Reduce.NOTSET, h)).
    { cbn. rewrite Hunset. reflexivity. }
    pose proof (Hrun [] d Reduce.NOTSET h acc h' Hfold Hfn) as H.
    cbn [app] in H. rewrite H. reflexivity.
  - intros Hp. cbn. rewrite (py_is_obj_false _ _ Hp). reflexivity.
Qed.

(** [Reduce(by=lambda a, b: b)] as built, on the one-item stream [5],
    emits nothing; a stage with the attributes of [Count()] but another
    object than NOTSET in [prev_result] emits 0 on the empty stream. *)
Lemma Reduce_END_guard_witness :
  fst (default_handle_stream Reduce.handle
         (Reduce.init (fun _ b => ret b) Reduce.NOTSET) [PInt 5] 8%nat)
  = []
  /\ fst (default_handle_stream Reduce.handle
            (Reduce_with_prev (PObj 7) Count.init) [] 8%nat)
     = [Item (PInt 0)].
Proof.
  split.
  - apply (proj1 (proj2 (proj2
             (Reduce_END_guard
                (Reduce.init (fun _ b => ret b) Reduce.NOTSET) 8%nat)))
             (PInt 5) (PInt 5) 8%nat); reflexivity.
  - apply (proj2 (proj2 (proj2
             (Reduce_END_guard (Reduce_with_prev (PObj 7) Count.init)
                8%nat)))).
    discriminate.
Defined.

(** C3 - Sum: on the empty stream Sum, as built, emits nothing; on a
    stream with at least one item the first activation calls the builtin
    [sum(0, item)], which raises TypeError since 0 is not iterable: nothing
    is emitted and the stage is aborted.  In particular Sum on [1,2,3]
    emits no 6.  The same holds whatever [prev_result] holds when the stage
    starts, except that on the empty stream a stage whose [prev_result] is
    another object than NOTSET, as in a copy of the instance whose
    attributes are copied with it, emits 0. *)
Theorem Sum_raises_on_first_item :
  (forall h, exists self',
      default_handle_stream Reduce.handle Sum.init [] h = ([], Ok (self', h)))
  /\ (forall d rest h,
        default_handle_stream Reduce.handle Sum.init (d :: rest) h
        = ([], Raise TypeError))
  /\ (forall h,
        default_handle_stream Reduce.handle Sum.init
          [PInt 1; PInt 2; PInt 3] h
        = ([], Raise TypeError))
  /\ (forall p d rest h,
        default_handle_stream Reduce.handle (Reduce_with_prev p Sum.init)
          (d :: rest) h
        = ([], Raise TypeError))
  /\ (forall p h,
        fst (default_handle_stream Reduce.handle
               (Reduce_with_prev p Sum.init) [] h)
        = if py_is_obj p Reduce.NOTSET_id then [] else [Item (PInt 0)]).
Proof.
  assert (H : forall p d rest h,
             default_handle_stream Reduce.handle
               (Reduce_with_prev p Sum.init) (d :: rest) h
             = ([], Raise TypeError)).
  { intros p d rest h. unfold default_handle_stream. cbn [map app].
    rewrite dispatch_all_cons.
    rewrite (Reduce_handle_item_raises (Reduce_with_prev p Sum.init) d h
               TypeError); reflexivity. }
  split; [|split; [exact (H Reduce.NOTSET)|split;
                   [intros h; apply (H Reduce.NOTSET)|split; [exact H|]]]].
  - intros h. eexists. reflexivity.
  - intros p h. cbn. destruct (py_is_obj p Reduce.NOTSET_id); reflexivity.
Qed.

(** ** Flatten *)

(** Flatten(max_level=1) applied to the single item [[1,2],[3,[4,5]]]
    emits the two items [1,2] and [3,[4,5]], not 1, 2, 3, [4,5]. *)
Lemma Flatten_single_item_counterexample :
  exists self' puts r h',
    Flatten.handle (Flatten.init (Some 1)) (Item nested_12_345) 5%nat
    = Ok (self', puts, r, h')
    /\ puts = [Item (PList 2 [PInt 1; PInt 2]);
               Item (PList 3 [PInt 3; PList 4 [PInt 4; PInt 5]])]
    /\ puts <> [Item (PInt 1); Item (PInt 2); Item (PInt 3);
                Item (PList 4 [PInt 4; PInt 5])].
Proof.
  eexists _, _, _, _. split; [reflexivity|]. split; [reflexivity|].
  discriminate.
Qed.

Lemma Flatten_traverse_str max_level s level :
  Flatten.traverse max_level (PStr s) level = [PStr s].
Proof. cbn. destruct (level >=? max_level + 1); reflexivity. Qed.

(** C2 - Flatten levels: with max_level=1 the single item
    [[1,2],[3,[4,5]]] is expanded by one level, into [1,2] and [3,[4,5]];
    the stream of these two items is flattened to 1, 2, 3, [4,5] (as is
    the single item with max_level=2); with max_level None or 0 the
    single item is flattened to 1, 2, 3, 4, 5.  A string is a leaf at
    every level: it is emitted whole, alone or inside a list. *)
Theorem Flatten_levels :
  (forall h,
     Flatten.handle (Flatten.init (Some 1)) (Item nested_12_345) h
     = Ok (Flatten.init (Some 1),
           [Item (PList 2 [PInt 1; PInt 2]);
            Item (PList 3 [PInt 3; PList 4 [PInt 4; PInt 5]])],
           RetNone, h))
  /\ (forall h,
        default_handle_stream Flatten.handle (Flatten.init (Some 1))
          [PList 2 [PInt 1; PInt 2];
           PList 3 [PInt 3; PList 4 [PInt 4; PInt 5]]] h
        = ([Item (PInt 1); Item (PInt 2); Item (PInt 3);
            Item (PList 4 [PInt 4; PInt 5]); END],
           Ok (Flatten.init (Some 1), h)))
  /\ (forall h,
        Flatten.handle (Flatten.init (Some 2)) (Item nested_12_345) h
        = Ok (Flatten.init (Some 2),
              [Item (PInt 1); Item (PInt 2); Item (PInt 3);
               Item (PList 4 [PInt 4; PInt 5])],
              RetNone, h))
  /\ (forall h,
        Flatten.handle (Flatten.init None) (Item nested_12_345) h
        = Ok (Flatten.init None,
              [Item (PInt 1); Item (PInt 2); Item (PInt 3); Item (PInt 4);
               Item (PInt 5)],
              RetNone, h))
  /\ (forall h,
        Flatten.handle (Flatten.init (Some 0)) (Item nested_12_345) h
        = Ok (Flatten.init (Some 0),
              [Item (PInt 1); Item (PInt 2); Item (PInt 3); Item (PInt 4);
               Item (PInt 5)],
              RetNone, h))
  /\ (forall self s h,
        Flatten.handle self (Item (PStr s)) h
        = Ok (self, [Item (PStr s)], RetNone, h))
  /\ (forall self i strs h,
        1 <= Flatten.max_level self ->
        Flatten.handle self (Item (PList i (map PStr strs))) h
        = Ok (self, map Item (map PStr strs), RetNone, h)).
Proof.
  repeat split; try reflexivity.
  - intros self s h. unfold Flatten.handle.
    rewrite Flatten_traverse_str. reflexivity.
  - intros self i strs h Hlevel. unfold Flatten.handle.
    cbn [Flatten.traverse].
    replace (1 >=? Flatten.max_level self + 1) with false
      by (symmetry; rewrite Z.geb_leb; apply Z.leb_gt; lia).
    assert (E : flat_map
                  (fun _item =>
                     Flatten.traverse (Flatten.max_level self) _item (1 + 1))
                  (map PStr strs)
                = map PStr strs).
    { induction strs as [|s strs IH]; [reflexivity|].
      cbn [map flat_map]. rewrite Flatten_traverse_str, IH. reflexivity. }
    rewrite E. reflexivity.
Qed.

(** The default Flatten() on the item ["ab", "c"] emits the two strings. *)
Lemma Flatten_levels_witness :
  Flatten.handle Flatten.default_init
    (Item (PList 7 [PStr "ab"; PStr "c"])) 8%nat
  = Ok (Flatten.default_init, [Item (PStr "ab"); Item (PStr "c")],
        RetNone, 8%nat).
Proof.
  apply (proj2 (proj2 (proj2 (proj2 (proj2 (proj2 Flatten_levels)))))
           Flatten.default_init 7%nat ["ab"%string; "c"%string] 8%nat).
  cbn. lia.
Defined.

(** ** Group *)

(** Group(by=x%2, num=2, keep=True) on 1, 2, 3, 4, 5: (1, (1, 3)) and
    (0, (2, 4)) as the buckets fill, then (1, (5,)) at END. *)
Example Group_parity_example :
  match Group.init parity (Group.Num 2) true with
  | Ok self =>
      fst (default_handle_stream Group.handle self
             [PInt 1; PInt 2; PInt 3; PInt 4; PInt 5] 1%nat)
  | Raise _ => []
  end
  = [Item (PTuple [PInt 1; PTuple [PInt 1; PInt 3]]);
     Item (PTuple [PInt 0; PTuple [PInt 2; PInt 4]]);
     Item (PTuple [PInt 1; PTuple [PInt 5]])].
Proof. reflexivity. Qed.

Lemma py_eq_congr_r k key e :
  py_eq k key = true -> py_eq e k = py_eq e key.
Proof.
  intros H. apply eq_true_iff_eq. split; intros He.
  - apply py_eq_trans with k; assumption.
  - apply py_eq_trans with key; [assumption|]. rewrite py_eq_sym. exact H.
Qed.

Lemma Group_lookup_None key t :
  Group.lookup key t = None
  <-> Forall (fun kv => py_eq (fst kv) key = false) t.
Proof.
  induction t as [|[k vs] t IH]; cbn.
  - split; [constructor|reflexivity].
  - destruct (py_eq k key) eqn:E.
    + split; [discriminate|]. intros H. inversion H; subst. cbn in *.
      congruence.
    + rewrite IH. split.
      * intros H. constructor; assumption.
      * intros H. inversion H; assumption.
Qed.

Lemma Group_lookup_app key t u :
  Group.lookup key (t ++ u)
  = match Group.lookup key t with
    | Some vs => Some vs
    | None => Group.lookup key u
    end.
Proof.
  induction t as [|[k vs] t IH]; cbn; [reflexivity|].
  destruct (py_eq k key); [reflexivity|exact IH].
Qed.

Lemma keys_distinct_snoc key vs t :
  Group.lookup key t = None -> keys_distinct t ->
  keys_distinct (t ++ [(key, vs)]).
Proof.
  induction t as [|[k ws] t IH]; cbn.
  - auto.
  - destruct (py_eq k key) eqn:E; [discriminate|].
    intros Hnone [Hk Hd]. split; [|auto].
    rewrite Group_lookup_app, Hk. cbn.
    rewrite py_eq_sym, E. reflexivity.
Qed.

Lemma Group_getitem_spec key t :
  Group.getitem key t
  = (bucket_of key t,
     match Group.lookup key t with
     | Some _ => t
     | None => t ++ [(key, [])]
     end).
Proof.
  unfold Group.getitem, bucket_of. destruct (Group.lookup key t); reflexivity.
Qed.

Lemma Group_getitem_inv a key t :
  Group_below a 0 -> keys_distinct t -> Group_bounded a t ->
  let t1 := snd (Group.getitem key t) in
  Group.lookup key t1 = Some (bucket_of key t)
  /\ keys_distinct t1 /\ Group_bounded a t1.
Proof.
  intros Ha Hd Hb. rewrite Group_getitem_spec. unfold bucket_of. cbn [snd].
  destruct (Group.lookup key t) eqn:E.
  - auto.
  - split; [|split].
    + rewrite Group_lookup_app, E. cbn. rewrite py_eq_refl. reflexivity.
    + apply keys_distinct_snoc; assumption.
    + apply Forall_app. split; [exact Hb|]. repeat constructor. exact Ha.
Qed.

Lemma Group_store_keys key g t :
  map fst (Group.store key g t) = map fst t.
Proof.
  induction t as [|[k vs] t IH]; cbn; [reflexivity|].
  destruct (py_eq k key); cbn; congruence.
Qed.

Lemma Group_lookup_None_keys k t t' :
  map fst t = map fst t' ->
  Group.lookup k t = None -> Group.lookup k t' = None.
Proof.
  rewrite !Group_lookup_None. revert t'.
  induction t as [|[k1 v1] t IH]; intros [|[k2 v2] t'] Hk H;
    try discriminate; [constructor|].
  cbn in Hk. injection Hk as -> Hk. inversion H; subst.
  constructor; [assumption|]. apply IH; assumption.
Qed.

Lemma Group_store_inv a key g t g0 :
  Group.lookup key t = Some g0 -> keys_distinct t ->
  Group.lookup key (Group.store key g t) = Some g
  /\ keys_distinct (Group.store key g t)
  /\ (Group_below a (length g) -> Group_bounded a t ->
      Group_bounded a (Group.store key g t)).
Proof.
  induction t as [|[k vs] t IH]; cbn; [discriminate|].
  destruct (py_eq k key) eqn:E.
  - intros _ [Hk Hd]. cbn. rewrite E. repeat split; try assumption.
    intros Hg Hb. inversion Hb; subst. constructor; assumption.
  - intros Hl [Hk Hd]. destruct (IH Hl Hd) as (H1 & H2 & H3).
    cbn. rewrite E. repeat split; try assumption.
    + eapply Group_lookup_None_keys; [|exact Hk].
      symmetry. apply Group_store_keys.
    + intros Hg Hb. inversion Hb; subst. constructor; [assumption|].
      apply H3; assumption.
Qed.

Lemma Group_remove_store key g t :
  Group.remove key (Group.store key g t) = Group.remove key t.
Proof.
  induction t as [|[k vs] t IH]; cbn; [reflexivity|].
  destruct (py_eq k key) eqn:E; cbn; rewrite E; [reflexivity|].
  rewrite IH. reflexivity.
Qed.

Lemma Group_remove_Forall (P : pyval * list pyval -> Prop) key t :
  Forall P t -> Forall P (Group.remove key t).
Proof.
  induction 1 as [|[k vs] t Hx Ht IH]; cbn; [constructor|].
  destruct (py_eq k key); [assumption|]. constructor; assumption.
Qed.

Lemma Group_remove_inv a key t :
  keys_distinct t -> Group_bounded a t ->
  Group.lookup key (Group.remove key t) = None
  /\ keys_distinct (Group.remove key t)
  /\ Group_bounded a (Group.remove key t).
Proof.
  intros Hd Hb. split; [|split].
  - induction t as [|[k vs] t IH]; cbn; [reflexivity|].
    destruct Hd as [Hk Hd]. inversion Hb; subst.
    destruct (py_eq k key) eqn:E.
    + rewrite Group_lookup_None in *.
      eapply Forall_impl; [exact Hk|]. intros kv Hkv. cbn in Hkv.
      rewrite <- (py_eq_congr_r _ _ _ E). exact Hkv.
    + cbn. rewrite E. auto.
  - induction t as [|[k vs] t IH]; cbn; [exact I|].
    destruct Hd as [Hk Hd]. inversion Hb; subst.
    destruct (py_eq k key); [assumption|]. cbn. split; [|auto].
    rewrite Group_lookup_None in *. apply Group_remove_Forall. exact Hk.
  - apply Group_remove_Forall. exact Hb.
Qed.

Lemma Group_not_reached a n :
  Group.reached n a = false -> Group_below a n.
Proof.
  destruct a as [k|]; cbn; [|auto].
  rewrite Z.geb_leb. intros H. apply Z.leb_gt in H. exact H.
Qed.

Lemma Group_gt_one_below a : Group.gt_one a = true -> Group_below a 0.
Proof.
  destruct a as [k|]; cbn; [|auto].
  rewrite Z.gtb_ltb. intros H. apply Z.ltb_lt in H. lia.
Qed.

Lemma Group_handle_item self data h key h1 :
  Group.key_fn self data h = Ok (key, h1) ->
  py_hashable key = true ->
  Group.handle self (Item data) h
  = let bucket := bucket_of key (Group.groups self) ++ [data] in
    let t := Group.store key bucket
               (snd (Group.getitem key (Group.groups self))) in
    if Group.reached (length bucket) (Group.group_size self)
    then Ok (Group.with_groups self (Group.remove key t),
             [Group.emit key bucket], RetNone, h1)
    else Ok (Group.with_groups self t, [], RetNone, h1).
Proof.
  intros Hkey Hhash. unfold Group.handle.
  rewrite (bind_Ok _ _ _ _ _ Hkey), Hhash, Group_getitem_spec. cbn [snd].
  cbv zeta. destruct (Group.reached _ _); reflexivity.
Qed.

Lemma Group_handle_item_key self data h self' puts r h' :
  Group.handle self (Item data) h = Ok (self', puts, r, h') ->
  exists key,
    Group.key_fn self data h = Ok (key, h') /\ py_hashable key = true.
Proof.
  intros H. destruct (Group.key_fn self data h) as [[key h1]|e] eqn:Hkey.
  - destruct (py_hashable key) eqn:Hhash.
    + rewrite (Group_handle_item _ _ _ _ _ Hkey Hhash) in H. cbv zeta in H.
      exists key. destruct (Group.reached _ _); injection H as <- <- <- <-;
        auto.
    + unfold Group.handle in H.
      rewrite (bind_Ok _ _ _ _ _ Hkey), Hhash in H. discriminate.
  - unfold Group.handle in H. rewrite (bind_Raise _ _ _ _ Hkey) in H.
    discriminate.
Qed.

(** Every completed activation keeps the table well formed and its
    buckets below the group size. *)
Lemma Group_handle_inv self m h self' puts r h' :
  Group_inv self ->
  Group.handle self m h = Ok (self', puts, r, h') ->
  Group_inv self'.
Proof.
  intros (Hgt & Hd & Hb) H. destruct m as [data|].
  - destruct (Group_handle_item_key _ _ _ _ _ _ _ H) as (key & Hkey & Hhash).
    rewrite (Group_handle_item _ _ _ _ _ Hkey Hhash) in H. cbv zeta in H.
    destruct (Group_getitem_inv (Group.group_size self) key
                (Group.groups self) (Group_gt_one_below _ Hgt) Hd Hb)
      as (Hl1 & Hd1 & Hb1).
    destruct (Group_store_inv (Group.group_size self) key
                (bucket_of key (Group.groups self) ++ [data]) _ _ Hl1 Hd1)
      as (Hl2 & Hd2 & Hb2).
    destruct (Group.reached _ _) eqn:Hr; injection H as <- <- <-.
    + rewrite Group_remove_store.
      destruct (Group_remove_inv (Group.group_size self) key _ Hd1 Hb1)
        as (_ & Hd3 & Hb3).
      split; [exact Hgt|]. split; assumption.
    + split; [exact Hgt|]. split; [exact Hd2|].
      apply Hb2; [|exact Hb1]. apply Group_not_reached. exact Hr.
  - unfold Group.handle in H.
    destruct (Group.keep_rest self); injection H as <- <- <- <-.
    + split; [exact Hgt|]. split; [exact I|constructor].
    + split; [exact Hgt|]. split; assumption.
Qed.

Lemma dispatch_all_invariant {S} (handle : activation S) (I : S -> Prop) :
  (forall self m h self' puts r h',
      I self -> handle self m h = Ok (self', puts, r, h') -> I self') ->
  forall inputs self h out self' h',
    I self ->
    dispatch_all handle self inputs h = (out, Ok (self', h')) ->
    I self'.
Proof.
  intros Hstep. induction inputs as [|m rest IH]; intros self h out self' h' HI.
  - cbn. intros H. injection H as _ <- _. exact HI.
  - rewrite dispatch_all_cons.
    destruct (handle self m h) as [[[[self1 puts] r] h1]|e] eqn:Hm;
      [|discriminate].
    destruct (dispatch_all handle self1 rest h1) as [out1 r1] eqn:Hrest.
    intros H. injection H as _ ->.
    eapply IH; [|exact Hrest]. eapply Hstep; eassumption.
Qed.

Lemma Group_init_inv by_ num keep self :
  Group.init by_ num keep = Ok self -> Group_inv self.
Proof.
  unfold Group.init. destruct (Group.gt_one num) eqn:Hgt; [|discriminate].
  intros H. injection H as <-. split; [exact Hgt|]. split; [exact I|constructor].
Qed.

(** C9 - Group bucket sizes: in a stage built by [Group(by, num, keep)],
    after any number of completed activations every bucket left in the
    table has fewer than [group_size] items.  An activation on an item
    appends it to the bucket of its key; if the bucket then reaches
    [group_size] the activation emits [(key, tuple(bucket))] and the key
    is gone from the table, otherwise it emits nothing and the bucket
    stays.  With [keep_rest], the activation on END emits every bucket
    left, in insertion order, and empties the table. *)
Theorem Group_bucket_size_invariant (by_ : pyval -> Py pyval)
  (num : Group.size) (keep : bool) (self0 : Group.state)
  (inputs : list msg) (h : heap) (out : list msg) (self : Group.state)
  (h' : heap) :
  Group.init by_ num keep = Ok self0 ->
  dispatch_all Group.handle self0 inputs h = (out, Ok (self, h')) ->
  Group_bounded (Group.group_size self) (Group.groups self)
  /\ (forall data h1 self' puts r h2,
        Group.handle self (Item data) h1 = Ok (self', puts, r, h2) ->
        exists key,
          Group.key_fn self data h1 = Ok (key, h2)
          /\ let bucket := bucket_of key (Group.groups self) ++ [data] in
             if Group.reached (length bucket) (Group.group_size self)
             then puts = [Group.emit key bucket]
                  /\ Group.lookup key (Group.groups self') = None
             else puts = []
                  /\ Group.lookup key (Group.groups self') = Some bucket)
  /\ (Group.keep_rest self = true ->
      forall h1,
        Group.handle self END h1
        = Ok (Group.with_groups self [],
              map (fun kv => Group.emit (fst kv) (snd kv)) (Group.groups self),
              RetNone, h1)).
Proof.
  intros Hinit Hrun.
  assert (Hinv : Group_inv self).
  { eapply (dispatch_all_invariant Group.handle Group_inv);
      [exact Group_handle_inv| |exact Hrun].
    eapply Group_init_inv. exact Hinit. }
  destruct Hinv as (Hgt & Hd & Hb). split; [exact Hb|]. split.
  - intros data h1 self' puts r h2 H.
    destruct (Group_handle_item_key _ _ _ _ _ _ _ H) as (key & Hkey & Hhash).
    exists key. split; [exact Hkey|].
    rewrite (Group_handle_item _ _ _ _ _ Hkey Hhash) in H. cbv zeta in *.
    destruct (Group_getitem_inv (Group.group_size self) key
                (Group.groups self) (Group_gt_one_below _ Hgt) Hd Hb)
      as (Hl1 & Hd1 & Hb1).
    destruct (Group_store_inv (Group.group_size self) key
                (bucket_of key (Group.groups self) ++ [data]) _ _ Hl1 Hd1)
      as (Hl2 & Hd2 & _).
    destruct (Group.reached _ _); injection H as <- <- <-.
    + split; [reflexivity|]. cbn [Group.groups Group.with_groups].
      rewrite Group_remove_store.
      apply (Group_remove_inv (Group.group_size self) key _ Hd1 Hb1).
    + split; [reflexivity|]. exact Hl2.
  - intros Hkeep h1. unfold Group.handle. rewrite Hkeep. reflexivity.
Qed.

(** Group(by=x%2, num=2, keep=True) after the items 1, 2, 3: the bucket of
    key 1 was emitted as (1, (1, 3)); the bucket [2] of key 0 is left. *)
Lemma Group_bucket_size_invariant_witness :
  Group_bounded (Group.Num 2) [(PInt 0, [PInt 2])]
  /\ Group.handle
       {| Group.key_fn := parity; Group.group_size := Group.Num 2;
          Group.keep_rest := true; Group.groups := [(PInt 0, [PInt 2])] |}
       END 0%nat
     = Ok ({| Group.key_fn := parity; Group.group_size := Group.Num 2;
              Group.keep_rest := true; Group.groups := [] |},
           [Item (PTuple [PInt 0; PTuple [PInt 2]])], RetNone, 0%nat).
Proof.
  pose proof (Group_bucket_size_invariant parity (Group.Num 2) true
                {| Group.key_fn := parity; Group.group_size := Group.Num 2;
                   Group.keep_rest := true; Group.groups := [] |}
                [Item (PInt 1); Item (PInt 2); Item (PInt 3)] 0%nat
                [Item (PTuple [PInt 1; PTuple [PInt 1; PInt 3]])]
                {| Group.key_fn := parity; Group.group_size := Group.Num 2;
                   Group.keep_rest := true;
                   Group.groups := [(PInt 0, [PInt 2])] |}
                0%nat eq_refl eq_refl) as (Hb & _ & Hend).
  split; [exact Hb|]. exact (Hend eq_refl 0%nat).
Defined.

(** ** Until *)

(** Until(by=3) on 1, 2, 3, 4, 5 writes 1 and 2, and no END. *)
Example Until_value_example :
  fst (default_handle_stream Until.handle (Until.init (Until.Value (PInt 3)))
         [PInt 1; PInt 2; PInt 3; PInt 4; PInt 5] 1%nat)
  = [Item (PInt 1); Item (PInt 2)].
Proof. reflexivity. Qed.

(** C10 - Until after its stop condition matched: the activation on the
    matching item sets [stop] and writes nothing; from then on every
    activation, on a real item or on END, writes nothing, leaves the stage
    unchanged and returns None, so that no run of later activations writes
    anything.  END is never written, whatever the state, and no activation
    ever returns END to end the stage. *)
Theorem Until_silent_after_stop :
  (forall self data h h',
      Until.stop self = false ->
      Until_matches (Until.by_ self) data h h' ->
      Until.handle self (Item data) h
      = Ok ({| Until.by_ := Until.by_ self; Until.stop := true |},
            [], RetNone, h'))
  /\ (forall self m h,
        Until.stop self = true ->
        Until.handle self m h = Ok (self, [], RetNone, h))
  /\ (forall self inputs h,
        Until.stop self = true ->
        dispatch_all Until.handle self inputs h = ([], Ok (self, h)))
  /\ (forall self h, Until.handle self END h = Ok (self, [], RetNone, h))
  /\ (forall self m h self' puts r h',
        Until.handle self m h = Ok (self', puts, r, h') ->
        r = RetNone /\ ~ In END puts).
Proof.
  assert (Hstopped : forall self m h,
             Until.stop self = true ->
             Until.handle self m h = Ok (self, [], RetNone, h)).
  { intros self [data|] h Hstop; unfold Until.handle; [|reflexivity].
    rewrite Hstop. reflexivity. }
  split; [|split; [exact Hstopped|split; [|split]]].
  - intros self data h h' Hstop Hm. unfold Until.handle. rewrite Hstop.
    cbn [negb]. unfold Until_matches in Hm.
    destruct (Until.by_ self) as [f|v].
    + rewrite (bind_Ok _ _ _ _ _ Hm). reflexivity.
    + destruct Hm as [Hm ->].
      rewrite (bind_Ok _ _ h (py_eq data v) h eq_refl), Hm. reflexivity.
  - intros self inputs. induction inputs as [|m rest IH]; intros h Hstop.
    + reflexivity.
    + rewrite dispatch_all_cons, (Hstopped self m h Hstop), (IH h Hstop).
      reflexivity.
  - reflexivity.
  - intros self m h self' puts r h'. unfold Until.handle.
    destruct m as [data|]; [|intros H; injection H as <- <- <- <-; auto].
    destruct (negb (Until.stop self));
      [|intros H; injection H as <- <- <- <-; auto].
    destruct (match Until.by_ self with
              | Until.Callable f => f data
              | Until.Value v => ret (py_eq data v)
              end h) as [[s h1]|e] eqn:Hby.
    + rewrite (bind_Ok _ _ _ _ _ Hby). intros H. injection H as <- <- <- <-.
      split; [reflexivity|]. destruct s; cbn; [tauto|].
      intros [H|[]]. discriminate H.
    + rewrite (bind_Raise _ _ _ _ Hby). discriminate.
Qed.

(** Until(by=3) on 1, 2, 3, 4, 5: the activation on 3 matches, and the
    activations on 4, 5 and END write nothing. *)
Lemma Until_silent_after_stop_witness :
  Until.handle (Until.init (Until.Value (PInt 3))) (Item (PInt 3)) 0%nat
  = Ok ({| Until.by_ := Until.Value (PInt 3); Until.stop := true |},
        [], RetNone, 0%nat)
  /\ dispatch_all Until.handle
       {| Until.by_ := Until.Value (PInt 3); Until.stop := true |}
       [Item (PInt 4); Item (PInt 5); END] 0%nat
     = ([], Ok ({| Until.by_ := Until.Value (PInt 3); Until.stop := true |},
                0%nat)).
Proof.
  destruct Until_silent_after_stop as (Hmatch & _ & Hlater & _).
  split.
  - apply (Hmatch (Until.init (Until.Value (PInt 3))) (PInt 3) 0%nat 0%nat).
    + reflexivity.
    + split; reflexivity.
  - apply (Hlater {| Until.by_ := Until.Value (PInt 3); Until.stop := true |}).
    reflexivity.
Defined.

(** * Further properties of the operators *)

(** ** Flatten, Collect *)

Lemma flat_map_ext_Forall {A B} (f g : A -> list B) (l : list A) :
  Forall (fun x => f x = g x) l -> flat_map f l = flat_map g l.
Proof.
  induction 1 as [|x l Hx _ IH]; [reflexivity|].
  cbn. rewrite Hx, IH. reflexivity.
Qed.

Lemma flat_map_flat_map {A B C} (f : A -> list B) (g : B -> list C) l :
  flat_map g (flat_map f l) = flat_map (fun x => flat_map g (f x)) l.
Proof.
  induction l as [|x l IH]; [reflexivity|].
  cbn. rewrite flat_map_app, IH. reflexivity.
Qed.

(** Flatten neither loses, duplicates nor reorders atoms: whatever the
    level bound and the level reached, opening every list and tuple of
    what [traverse] appended gives the atoms of the item, so the items one
    activation emits carry exactly the atoms of the item it read. *)
Theorem Flatten_preserves_leaves (self : Flatten.state) (data : pyval)
  (h : heap) :
  exists out,
    Flatten.handle self (Item data) h = Ok (self, map Item out, RetNone, h)
    /\ flat_map leaves out = leaves data.
Proof.
  exists (Flatten.traverse (Flatten.max_level self) data 1).
  split; [reflexivity|]. generalize 1. generalize (Flatten.max_level self).
  intros ml.
  induction data as [ | z | s | l IH | i l IH | i d IH | i ] using pyval_ind;
    intros level; cbn [Flatten.traverse];
    destruct (level >=? ml + 1);
    try (cbn [flat_map]; rewrite app_nil_r; reflexivity).
  - rewrite flat_map_flat_map. cbn [leaves]. apply flat_map_ext_Forall.
    eapply Forall_impl; [exact IH|]. intros x Hx. apply Hx.
  - rewrite flat_map_flat_map. cbn [leaves]. apply flat_map_ext_Forall.
    eapply Forall_impl; [exact IH|]. intros x Hx. apply Hx.
Qed.

Lemma foldr_max_le (l : list pyval) x :
  In x l -> (depth x <= foldr (fun y m => Nat.max (depth y) m) 0 l)%nat.
Proof.
  induction l as [|y l IH]; cbn; [tauto|].
  intros [->|H]; [lia|]. specialize (IH H). lia.
Qed.

Lemma Flatten_traverse_deep ml x :
  forall level,
    Z.of_nat (depth x) + level <= ml + 1 ->
    Flatten.traverse ml x level = leaves x.
Proof.
  induction x as [ | z | s | l IH | i l IH | i d IH | i ] using pyval_ind;
    intros level Hd; cbn [Flatten.traverse leaves];
    destruct (level >=? ml + 1) eqn:E; try reflexivity.
  - rewrite Z.geb_leb in E. apply Z.leb_le in E. cbn [depth] in Hd. lia.
  - apply flat_map_ext_Forall. rewrite List.Forall_forall in *.
    intros x Hx. apply (IH x Hx).
    pose proof (foldr_max_le l x Hx). cbn [depth] in Hd. lia.
  - rewrite Z.geb_leb in E. apply Z.leb_le in E. cbn [depth] in Hd. lia.
  - apply flat_map_ext_Forall. rewrite List.Forall_forall in *.
    intros x Hx. apply (IH x Hx).
    pose proof (foldr_max_le l x Hx). cbn [depth] in Hd. lia.
Qed.

(** When the lists and tuples of an item are nested no deeper than
    [max_level], Flatten emits its atoms, in order, and nothing else; this
    is the case of every item nested less than 999999999999 deep for a
    stage built with [max_level] None or 0. *)
Theorem Flatten_emits_atoms (self : Flatten.state) (data : pyval) (h : heap) :
  Z.of_nat (depth data) <= Flatten.max_level self ->
  Flatten.handle self (Item data) h
  = Ok (self, map Item (leaves data), RetNone, h).
Proof.
  intros Hd. unfold Flatten.handle.
  rewrite Flatten_traverse_deep by lia. reflexivity.
Qed.

(** Flatten(max_level=2) on the item [[1,2], (), "ab"], nested two deep:
    the empty tuple contributes nothing, the string stays whole. *)
Lemma Flatten_emits_atoms_witness :
  Flatten.handle (Flatten.init (Some 2))
    (Item (PList 1 [PList 2 [PInt 1; PInt 2]; PTuple []; PStr "ab"])) 5%nat
  = Ok (Flatten.init (Some 2),
        [Item (PInt 1); Item (PInt 2); Item (PStr "ab")], RetNone, 5%nat).
Proof.
  apply (Flatten_emits_atoms (Flatten.init (Some 2))
           (PList 1 [PList 2 [PInt 1; PInt 2]; PTuple []; PStr "ab"]) 5%nat).
  cbn. lia.
Defined.

(** Collect followed by Flatten() gives the stream back: Collect emits one
    new list holding the items in arrival order (the empty list for the
    empty stream) and then END, and the default Flatten turns that list
    into the items again, untouched whatever they are, and then END. *)
Theorem Collect_then_Flatten (items : list pyval) (h : heap) :
  exists out h',
    Collect.handle_stream forward items h = Ok (out, h')
    /\ out = [Item (PList h items); END]
    /\ default_handle_stream Flatten.handle Flatten.default_init
         (payload out) h'
       = (map Item items ++ [END], Ok (Flatten.default_init, h')).
Proof.
  exists [Item (PList h items); END], (S h).
  split; [reflexivity|]. split; [reflexivity|].
  assert (E : Flatten.traverse 1 (PList h items) 1 = items).
  { cbn [Flatten.traverse]. change (1 >=? 1 + 1) with false. cbv iota.
    induction items as [|d l IH]; [reflexivity|].
    cbn [flat_map]. rewrite IH. destruct d; reflexivity. }
  cbn [payload]. unfold default_handle_stream. cbn [map app].
  rewrite !dispatch_all_cons. unfold Flatten.handle.
  cbn [Flatten.max_level Flatten.default_init Flatten.init].
  change (if 1 =? 0 then 999999999999 else 1) with 1. rewrite E.
  reflexivity.
Qed.

(** ** Sample on a short stream *)

Lemma Sample_fill_short randint k items :
  forall res cur,
    cur + Z.of_nat (length items) <= k ->
    Sample.fill randint k res cur items
    = Ok (res ++ items, cur + Z.of_nat (length items)).
Proof.
  induction items as [|d rest IH]; intros res cur Hk.
  - cbn. rewrite app_nil_r, Z.add_0_r. reflexivity.
  - cbn [Sample.fill]. rewrite length_cons in *.
    replace (cur <? k) with true by (symmetry; apply Z.ltb_lt; lia).
    rewrite IH by lia. rewrite <- app_assoc. do 2 f_equal. lia.
Qed.

(** A stream with no more than [num] items goes through Sample whole and
    in order, followed by END: no draw is made, whatever [random.randint]
    would answer. *)
Theorem Sample_short_stream (randint : Z -> Z -> Z) (k : Z)
  (items : list pyval) (self : Sample.state) :
  Sample.init k = Ok self ->
  Z.of_nat (length items) <= k ->
  Sample.handle_stream forward randint self items
  = Ok ({| Sample.num := k; Sample.reservoir := items |},
        map Item items ++ [END]).
Proof.
  intros Hinit Hlen. unfold Sample.init in Hinit.
  destruct (1 <=? k); [|discriminate]. injection Hinit as <-.
  unfold Sample.handle_stream. cbn [Sample.num Sample.reservoir].
  rewrite Sample_fill_short by lia. cbn [app]. unfold Sample.slice_to.
  replace (0 + Z.of_nat (length items) <? 0) with false
    by (symmetry; apply Z.ltb_ge; lia).
  rewrite take_ge by lia. rewrite flat_map_forward_items. reflexivity.
Qed.

(** Sample(3) on two items, with draws that would be out of range. *)
Lemma Sample_short_stream_witness :
  Sample.handle_stream forward (fun _ _ => -7)
    {| Sample.num := 3; Sample.reservoir := [] |} [PInt 10; PInt 11]
  = Ok ({| Sample.num := 3; Sample.reservoir := [PInt 10; PInt 11] |},
        [Item (PInt 10); Item (PInt 11); END]).
Proof.
  apply (Sample_short_stream (fun _ _ => -7) 3 [PInt 10; PInt 11]).
  - reflexivity.
  - cbn. lia.
Defined.

(** ** Until on a whole stream *)

Lemma Until_run_pure (by_ : Until.by_arg) (p : pyval -> bool) :
  (forall d h,
      match by_ with
      | Until.Callable f => f d
      | Until.Value v => ret (py_eq d v)
      end h = Ok (p d, h)) ->
  forall items h,
    dispatch_all Until.handle (Until.init by_) (map Item items ++ [END]) h
    = (map Item (until_first p items),
       Ok ({| Until.by_ := by_;
              Until.stop := existsb p items |}, h)).
Proof.
  intros Hby. unfold Until.init.
  assert (Hstopped : forall inputs h,
             dispatch_all Until.handle
               {| Until.by_ := by_; Until.stop := true |} inputs h
             = ([], Ok ({| Until.by_ := by_; Until.stop := true |}, h))).
  { induction inputs as [|m rest IH]; intros h; [reflexivity|].
    rewrite dispatch_all_cons. destruct m; cbn; rewrite IH; reflexivity. }
  induction items as [|d rest IH]; intros h.
  - reflexivity.
  - cbn [map app until_first existsb]. rewrite dispatch_all_cons.
    unfold Until.handle at 1. cbn [Until.stop Until.by_ negb].
    unfold mbind, Py_bind, bind. rewrite Hby.
    destruct (p d); cbn [negb orb].
    + unfold ret. rewrite Hstopped. reflexivity.
    + unfold ret. rewrite IH. reflexivity.
Qed.

(** Until forwards the items that come before the first match and nothing
    else: for [by] an object, the items before the first one equal to it;
    for [by] a predicate that answers without raising, the items before
    the first one it holds of.  The matching item, what follows it and END
    are not written, and [stop] tells at the end whether a match was
    met. *)
Theorem Until_forwards_prefix :
  (forall v items h,
      default_handle_stream Until.handle (Until.init (Until.Value v)) items h
      = (map Item (until_first (fun d => py_eq d v) items),
         Ok ({| Until.by_ := Until.Value v;
                Until.stop := existsb (fun d => py_eq d v) items |}, h)))
  /\ (forall p items h,
        default_handle_stream Until.handle
          (Until.init (Until.Callable (fun d => ret (p d)))) items h
        = (map Item (until_first p items),
           Ok ({| Until.by_ := Until.Callable (fun d => ret (p d));
                  Until.stop := existsb p items |}, h))).
Proof.
  split.
  - intros v items h.
    apply (Until_run_pure (Until.Value v) (fun d => py_eq d v)).
    reflexivity.
  - intros p items h.
    apply (Until_run_pure (Until.Callable (fun d => ret (p d))) p).
    reflexivity.
Qed.

(** ** Count, Min, Max, Last *)

(** What a Reduce stage whose fold returns set values writes over a whole
    stream (shared by the subclasses), [prev] being what [prev_result]
    holds when the stage starts. *)
Lemma Reduce_stream fn_ init prev items h acc h' :
  (forall a d h1 r h2, fn_ a d h1 = Ok (r, h2) -> r <> Reduce.NOTSET) ->
  init <> Reduce.NOTSET ->
  running_fold fn_ init items h = Ok (acc, h') ->
  fst (default_handle_stream Reduce.handle
         {| Reduce.fn := fn_; Reduce.result := init;
            Reduce.prev_result := prev |} items h)
  = match items with
    | [] => if py_is_obj prev Reduce.NOTSET_id then [] else [Item init]
    | _ :: _ => [Item acc]
    end.
Proof.
  intros Hset Hinit Hfold. unfold default_handle_stream.
  destruct (Reduce_items fn_ items init prev h acc h' Hfold)
    as (prev' & E & Hprev).
  rewrite dispatch_all_app, E. cbn. rewrite app_nil_r.
  destruct items as [|d [|d' rest]].
  - subst prev'. cbn in Hfold. injection Hfold as <- _. reflexivity.
  - subst prev'. rewrite py_is_obj_false by exact Hinit. reflexivity.
  - destruct Hprev as (a & b & h1 & h2 & Hfn).
    rewrite py_is_obj_false; [reflexivity|]. eapply Hset. exact Hfn.
Qed.

Lemma Count_fold items :
  forall c h,
    running_fold (fun a b => py_add a (PInt 1)) (PInt c) items h
    = Ok (PInt (c + Z.of_nat (length items)), h).
Proof.
  induction items as [|d rest IH]; intros c h.
  - cbn. rewrite Z.add_0_r. reflexivity.
  - cbn [running_fold]. rewrite (bind_Ok _ _ h (PInt (c + 1)) h eq_refl).
    rewrite IH, length_cons. do 3 f_equal. lia.
Qed.

(** Count on a stream of n >= 1 items, whatever the items are and
    whatever [prev_result] holds when the stage starts, emits n at END and
    nothing before.  On the empty stream it emits nothing only when its
    [prev_result] is the object NOTSET itself, as in the instance the
    constructor builds; a stage whose [prev_result] is another object, as
    in a copy of the instance whose attributes are copied with it, emits
    0. *)
Theorem Count_emits_length (p : pyval) (items : list pyval) (h : heap) :
  fst (default_handle_stream Reduce.handle (Reduce_with_prev p Count.init)
         items h)
  = match items with
    | [] => if py_is_obj p Reduce.NOTSET_id then [] else [Item (PInt 0)]
    | _ :: _ => [Item (PInt (Z.of_nat (length items)))]
    end.
Proof.
  unfold Reduce_with_prev, Count.init, Reduce.init.
  cbn [Reduce.fn Reduce.result].
  rewrite (Reduce_stream _ (PInt 0) p items h
             (PInt (0 + Z.of_nat (length items))) h).
  - reflexivity.
  - intros a d h1 r h2. apply Count_by_set.
  - discriminate.
  - apply Count_fold.
Qed.

Lemma Min_fold zs :
  forall r h,
    running_fold py_min (PInt r) (map PInt zs) h
    = Ok (PInt (fold_left Z.min zs r), h).
Proof.
  induction zs as [|z zs IH]; intros r h; [reflexivity|].
  cbn [map running_fold fold_left].
  rewrite (bind_Ok _ _ h (PInt (Z.min r z)) h).
  - apply IH.
  - unfold py_min, mbind, Py_bind, bind, lift, ret. cbn [py_lt].
    destruct (z <? r) eqn:E; do 3 f_equal.
    + apply Z.ltb_lt in E. lia.
    + apply Z.ltb_ge in E. lia.
Qed.

Lemma Max_fold zs :
  forall r h,
    running_fold py_max (PInt r) (map PInt zs) h
    = Ok (PInt (fold_left Z.max zs r), h).
Proof.
  induction zs as [|z zs IH]; intros r h; [reflexivity|].
  cbn [map running_fold fold_left].
  rewrite (bind_Ok _ _ h (PInt (Z.max r z)) h).
  - apply IH.
  - unfold py_max, mbind, Py_bind, bind, lift, ret. cbn [py_lt].
    destruct (r <? z) eqn:E; do 3 f_equal.
    + apply Z.ltb_lt in E. lia.
    + apply Z.ltb_ge in E. lia.
Qed.

(** Min and Max on a stream of integers, built with an integer [result]:
    when the stream has at least one item they emit at END, once, the
    least, respectively the greatest, of [result] and the items, whatever
    [prev_result] holds when the stage starts; [result] takes part in the
    comparison, so Min(result=0) on 3, 1, 2 emits 0.  On the empty stream
    they emit nothing only when [prev_result] is the object NOTSET itself,
    as in the instance the constructor builds; a stage whose [prev_result]
    is another object, as in a copy of the instance whose attributes are
    copied with it, emits [result]. *)
Theorem Min_Max_of_integers (p : pyval) (r : Z) (zs : list Z) (h : heap) :
  fst (default_handle_stream Reduce.handle
         (Reduce_with_prev p (Min.init (PInt r))) (map PInt zs) h)
  = match zs with
    | [] => if py_is_obj p Reduce.NOTSET_id then [] else [Item (PInt r)]
    | _ :: _ => [Item (PInt (fold_left Z.min zs r))]
    end
  /\ fst (default_handle_stream Reduce.handle
            (Reduce_with_prev p (Max.init (PInt r))) (map PInt zs) h)
     = match zs with
       | [] => if py_is_obj p Reduce.NOTSET_id then [] else [Item (PInt r)]
       | _ :: _ => [Item (PInt (fold_left Z.max zs r))]
       end.
Proof.
  unfold Reduce_with_prev, Min.init, Max.init, Reduce.init.
  cbn [Reduce.fn Reduce.result]. split.
  - rewrite (Reduce_stream py_min (PInt r) p (map PInt zs) h
               (PInt (fold_left Z.min zs r)) h).
    + destruct zs; reflexivity.
    + intros a d h1 x h2. apply py_min_set.
    + discriminate.
    + apply Min_fold.
  - rewrite (Reduce_stream py_max (PInt r) p (map PInt zs) h
               (PInt (fold_left Z.max zs r)) h).
    + destruct zs; reflexivity.
    + intros a d h1 x h2. apply py_max_set.
    + discriminate.
    + apply Max_fold.
Qed.

Lemma last_cons_default {A} (l : list A) (d p : A) :
  List.last (d :: l) p = List.last l d.
Proof.
  revert d p. induction l as [|x l IH]; intros d p; [reflexivity|].
  change (List.last (x :: l) p = List.last (x :: l) d).
  rewrite (IH x p), (IH x d). reflexivity.
Qed.

Lemma Last_items items :
  forall self h,
    dispatch_all Last.handle self (map Item items) h
    = ([], Ok ({| Last.prev := List.last items (Last.prev self) |}, h)).
Proof.
  induction items as [|d rest IH]; intros [p] h; [reflexivity|].
  cbn [map]. rewrite dispatch_all_cons.
  change (Last.handle {| Last.prev := p |} (Item d) h)
    with (Ok ({| Last.prev := d |}, @nil msg, RetNone, h)).
  cbv iota beta. rewrite IH. cbn [Last.prev app].
  rewrite last_cons_default. reflexivity.
Qed.

(** Last emits, at END and only then, the last item of the stream, also
    when the stream has a single item, unless this item is the class's own
    NOTSET object; at END the remembered item is reset to NOTSET.  On the
    empty stream it emits what its attribute [prev] holds when the stage
    starts, unless that is the object NOTSET itself: nothing for the
    instance the constructor builds, and the object held for a stage whose
    [prev] is another object, as in a copy of the instance whose
    attributes are copied with it. *)
Theorem Last_emits_last (p : pyval) (items : list pyval) (h : heap) :
  default_handle_stream Last.handle {| Last.prev := p |} items h
  = ((if py_is_obj (List.last items p) Last.NOTSET_id then []
      else [Item (List.last items p)]),
     Ok (Last.init, h)).
Proof.
  unfold default_handle_stream. rewrite dispatch_all_app, Last_items.
  cbn. destruct (py_is_obj _ _); reflexivity.
Qed.

(** Last on the one-item stream [7]; a stage whose [prev] is the object 9,
    not NOTSET, on the empty stream. *)
Example Last_example :
  fst (default_handle_stream Last.handle Last.init [PInt 7] 2%nat)
  = [Item (PInt 7)]
  /\ fst (default_handle_stream Last.handle {| Last.prev := PObj 9 |} []
            10%nat)
     = [Item (PObj 9)].
Proof. split; reflexivity. Qed.

(** ** Take *)

Lemma Take_run items :
  forall n h,
    dispatch_all Take.handle {| Take.num := n |} (map Item items) h
    = (map Item (take (Z.to_nat n) items),
       Ok ({| Take.num := if n >? 0
                          then Z.max 0 (n - Z.of_nat (length items))
                          else n |}, h))
    /\ dispatch_rets Take.handle {| Take.num := n |} (map Item items) h
       = imap (fun i _ => if Z.of_nat i + 1 =? n then RetEND else RetNone)
           items.
Proof.
  induction items as [|d rest IH]; intros n h.
  - split; [|reflexivity]. cbn [map dispatch_all length]. rewrite take_nil.
    do 3 f_equal. case_Z_tests. f_equal. lia.
  - cbn [map dispatch_all dispatch_rets]. unfold Take.handle at 1 3.
    cbn [Take.num]. destruct (Z.ltb_spec 0 n) as [E|E];
      rewrite Z.gtb_ltb;
      [replace (0 <? n) with true by (symmetry; apply Z.ltb_lt; lia)
      |replace (0 <? n) with false by (symmetry; apply Z.ltb_ge; lia)].
    + destruct (IH (n - 1) h) as [IH1 IH2].
      unfold ret. cbv iota beta. rewrite IH1, IH2. split.
      * replace (Z.to_nat n) with (S (Z.to_nat (n - 1))) by lia.
        cbn [take map app]. do 3 f_equal. rewrite length_cons.
        case_Z_tests; f_equal; lia.
      * rewrite imap_cons. f_equal.
        -- cbn. case_Z_tests.
        -- apply imap_ext. intros i x _. cbn. case_Z_tests.
    + destruct (IH n h) as [IH1 IH2].
      unfold ret. cbv iota beta. rewrite IH1, IH2. split.
      * replace (Z.to_nat n) with 0%nat by lia. rewrite !take_0.
        rewrite Z.gtb_ltb.
        replace (0 <? n) with false by (symmetry; apply Z.ltb_ge; lia).
        reflexivity.
      * rewrite imap_cons. f_equal.
        -- cbn. case_Z_tests.
        -- apply imap_ext. intros i x _. cbn. case_Z_tests.
Qed.

(** Take(n) writes the first n items of the stream (all of them when the
    stream is shorter) and nothing after them, END included; the
    activation that writes the n-th item, and no other, returns END to end
    the stage. *)
Theorem Take_first_items (n : Z) (items : list pyval) (self : Take.state)
  (h : heap) :
  Take.init n = Ok self ->
  fst (default_handle_stream Take.handle self items h)
  = map Item (take (Z.to_nat n) items)
  /\ dispatch_rets Take.handle self (map Item items) h
     = imap (fun i _ => if Z.of_nat i + 1 =? n then RetEND else RetNone)
         items.
Proof.
  intros Hinit. unfold Take.init in Hinit.
  destruct (1 <=? n); [|discriminate]. injection Hinit as <-.
  destruct (Take_run items n h) as [H1 H2]. split; [|exact H2].
  unfold default_handle_stream. rewrite dispatch_all_app, H1.
  cbn. rewrite app_nil_r. reflexivity.
Qed.

(** Take(2) on 5, 6, 7, 8. *)
Lemma Take_first_items_witness :
  fst (default_handle_stream Take.handle {| Take.num := 2 |}
         [PInt 5; PInt 6; PInt 7; PInt 8] 2%nat)
  = [Item (PInt 5); Item (PInt 6)]
  /\ dispatch_rets Take.handle {| Take.num := 2 |}
       (map Item [PInt 5; PInt 6; PInt 7; PInt 8]) 2%nat
     = [RetNone; RetEND; RetNone; RetNone].
Proof.
  apply (Take_first_items 2 [PInt 5; PInt 6; PInt 7; PInt 8]
           {| Take.num := 2 |} 2%nat).
  reflexivity.
Defined.

(** ** Map *)

Lemma Map_items fn_ items :
  forall h ys h',
    map_py fn_ items h = Ok (ys, h') ->
    dispatch_all Map.handle {| Map.fn := fn_ |} (map Item items) h
    = (map Item ys, Ok ({| Map.fn := fn_ |}, h')).
Proof.
  induction items as [|d rest IH]; intros h ys h' H.
  - cbn in H. injection H as <- <-. reflexivity.
  - cbn [map_py] in H.
    destruct (fn_ d h) as [[r h1]|e] eqn:Hd;
      [rewrite (bind_Ok _ _ _ _ _ Hd) in H
      |rewrite (bind_Raise _ _ _ _ Hd) in H; discriminate].
    destruct (map_py fn_ rest h1) as [[rs h2]|e] eqn:Hrest;
      [rewrite (bind_Ok _ _ _ _ _ Hrest) in H
      |rewrite (bind_Raise _ _ _ _ Hrest) in H; discriminate].
    injection H as <- <-.
    cbn [map]. rewrite dispatch_all_cons. unfold Map.handle at 1.
    cbn [Map.fn]. rewrite (bind_Ok _ _ _ _ _ Hd). unfold ret.
    rewrite (IH h1 rs h2 Hrest). reflexivity.
Qed.

(** Map writes the image by [fn] of every item, in order, and passes END
    on without calling [fn] on it.  When [fn] raises on an item, the
    images of the items before it have been written, the stage is aborted
    with that exception, and neither a later item nor END is written. *)
Theorem Map_stream (fn_ : pyval -> Py pyval) :
  (forall items h ys h',
      map_py fn_ items h = Ok (ys, h') ->
      default_handle_stream Map.handle {| Map.fn := fn_ |} items h
      = (map Item ys ++ [END], Ok ({| Map.fn := fn_ |}, h')))
  /\ (forall before d after h ys h1 e,
        map_py fn_ before h = Ok (ys, h1) ->
        fn_ d h1 = Raise e ->
        default_handle_stream Map.handle {| Map.fn := fn_ |}
          (before ++ d :: after) h
        = (map Item ys, Raise e)).
Proof.
  split.
  - intros items h ys h' H. unfold default_handle_stream.
    rewrite dispatch_all_app, (Map_items _ _ _ _ _ H). reflexivity.
  - intros before d after h ys h1 e H Hd. unfold default_handle_stream.
    rewrite map_app, <- app_assoc, dispatch_all_app, (Map_items _ _ _ _ _ H).
    cbn [map app]. rewrite dispatch_all_cons. unfold Map.handle at 1.
    cbn [Map.fn]. rewrite (bind_Raise _ _ _ _ Hd), app_nil_r. reflexivity.
Qed.

(** Map(by=x%2) on 3, 4 and on 3, "a", 4. *)
Lemma Map_stream_witness :
  default_handle_stream Map.handle {| Map.fn := parity |}
    [PInt 3; PInt 4] 2%nat
  = ([Item (PInt 1); Item (PInt 0); END], Ok ({| Map.fn := parity |}, 2%nat))
  /\ default_handle_stream Map.handle {| Map.fn := parity |}
       [PInt 3; PStr "a"; PInt 4] 2%nat
     = ([Item (PInt 1)], Raise TypeError).
Proof.
  destruct (Map_stream parity) as [Hok Hfail]. split.
  - apply (Hok [PInt 3; PInt 4] 2%nat [PInt 1; PInt 0] 2%nat). reflexivity.
  - apply (Hfail [PInt 3] (PStr "a") [PInt 4] 2%nat [PInt 1] 2%nat TypeError);
      reflexivity.
Defined.

(** ** Subscribe *)

Lemma Subscribe_items {U} (self : Subscribe.state U) items :
  forall u h u' h',
    call_nexts self items u h = Ok (u', h') ->
    dispatch_all (Subscribe.handle U) (self, u) (map Item items) h
    = (map Item items, Ok ((self, u'), h')).
Proof.
  induction items as [|d rest IH]; intros u h u' h' H.
  - cbn in H. injection H as <- <-. reflexivity.
  - cbn [call_nexts] in H.
    destruct (Subscribe.call_next U self d u h) as [[u1 h1]|e] eqn:Hd;
      [rewrite (bind_Ok _ _ _ _ _ Hd) in H
      |rewrite (bind_Raise _ _ _ _ Hd) in H; discriminate].
    cbn [map]. rewrite dispatch_all_cons. unfold Subscribe.handle at 1.
    rewrite (bind_Ok _ _ _ _ _ Hd). unfold ret.
    rewrite (IH u1 h1 u' h' H). reflexivity.
Qed.

(** Subscribe passes the stream through unchanged, END included.  It
    calls [on_next] once per real item, in order and before the item is
    written, and [on_complete] once, at END, after all of them; a callback
    that is None is skipped.  When [on_next] raises on an item, the items
    before it have been written and this item has not. *)
Theorem Subscribe_passes_through {U : Type} (self : Subscribe.state U) :
  (forall items u h u1 h1 u2 h2,
      call_nexts self items u h = Ok (u1, h1) ->
      Subscribe.call_complete U self u1 h1 = Ok (u2, h2) ->
      default_handle_stream (Subscribe.handle U) (self, u) items h
      = (map Item items ++ [END], Ok ((self, u2), h2)))
  /\ (forall before d after u h u1 h1 e,
        call_nexts self before u h = Ok (u1, h1) ->
        Subscribe.call_next U self d u1 h1 = Raise e ->
        default_handle_stream (Subscribe.handle U) (self, u)
          (before ++ d :: after) h
        = (map Item before, Raise e)).
Proof.
  split.
  - intros items u h u1 h1 u2 h2 Hn Hc. unfold default_handle_stream.
    rewrite dispatch_all_app, (Subscribe_items _ _ _ _ _ _ Hn).
    cbn [dispatch_all]. unfold Subscribe.handle.
    rewrite (bind_Ok _ _ _ _ _ Hc). reflexivity.
  - intros before d after u h u1 h1 e Hn Hd. unfold default_handle_stream.
    rewrite map_app, <- app_assoc, dispatch_all_app,
      (Subscribe_items _ _ _ _ _ _ Hn).
    cbn [map app]. rewrite dispatch_all_cons. unfold Subscribe.handle at 1.
    rewrite (bind_Raise _ _ _ _ Hd), app_nil_r. reflexivity.
Qed.

(** Subscribe with [on_next] adding the integers it sees to a total and
    no [on_complete], on 1, 2 and on 1, "a". *)
Lemma Subscribe_passes_through_witness :
  let add := fun (d : pyval) (total : Z) =>
               match d with
               | PInt z => ret (total + z)
               | _ => raise TypeError
               end in
  let self := {| Subscribe.on_next := Some add;
                 Subscribe.on_complete := None |} in
  default_handle_stream (Subscribe.handle Z) (self, 0) [PInt 1; PInt 2] 2%nat
  = ([Item (PInt 1); Item (PInt 2); END], Ok ((self, 3), 2%nat))
  /\ default_handle_stream (Subscribe.handle Z) (self, 0)
       [PInt 1; PStr "a"] 2%nat
     = ([Item (PInt 1)], Raise TypeError).
Proof.
  intros add self. destruct (Subscribe_passes_through self) as [Hok Hfail].
  split.
  - apply (Hok [PInt 1; PInt 2] 0 2%nat 3 2%nat 3 2%nat); reflexivity.
  - apply (Hfail [PInt 1] (PStr "a") [] 0 2%nat 1 2%nat TypeError);
      reflexivity.
Defined.

(** ** Branch *)

Lemma Branch_items (n : Z) (idx : pyval -> Z) items :
  Forall (fun d => idx d < n) items ->
  forall h,
    dispatch_routed Branch.handle
      {| Branch.num_out := n; Branch.fn := fun d => ret (PInt (idx d)) |}
      (map Item items) h
    = (map (fun d => (Some (PInt (idx d)), Item d)) items,
       Ok ({| Branch.num_out := n;
              Branch.fn := fun d => ret (PInt (idx d)) |}, h)).
Proof.
  induction 1 as [|d rest Hd _ IH]; intros h; [reflexivity|].
  cbn [map dispatch_routed]. unfold Branch.handle at 1.
  cbn [Branch.fn Branch.num_out]. unfold mbind, Py_bind, bind, ret, lift.
  cbn [Branch.index_ge].
  replace (idx d >=? n) with false
    by (symmetry; rewrite Z.geb_leb; apply Z.leb_gt; lia).
  rewrite IH. reflexivity.
Qed.

Lemma dispatch_routed_app {S} (handle : routed_activation S) l1 :
  forall self h l2,
    dispatch_routed handle self (l1 ++ l2) h
    = match dispatch_routed handle self l1 h with
      | (out1, Ok (self1, h1)) =>
          let '(out2, r) := dispatch_routed handle self1 l2 h1 in
          (out1 ++ out2, r)
      | (out1, Raise e) => (out1, Raise e)
      end.
Proof.
  induction l1 as [|m l1 IH]; intros self h l2.
  - cbn. destruct (dispatch_routed handle self l2 h). reflexivity.
  - cbn [app dispatch_routed].
    destruct (handle self m h) as [[[[self' puts] r] h']|e]; [|reflexivity].
    rewrite IH.
    destruct (dispatch_routed handle self' l1 h') as [out1 [[self1 h1]|e]].
    + destruct (dispatch_routed handle self1 l2 h1) as [out2 r2].
      rewrite app_assoc. reflexivity.
    + reflexivity.
Qed.

Lemma edge_routes (idx : pyval -> Z) (j : Z) items tail :
  edge j (map (fun d => (Some (PInt (idx d)), Item d)) items ++ tail)
  = map Item (List.filter (fun d => idx d =? j) items) ++ edge j tail.
Proof.
  induction items as [|d rest IH]; [reflexivity|].
  cbn [map app edge List.filter]. rewrite IH.
  destruct (idx d =? j); reflexivity.
Qed.

(** Branch routes every real item to the one output its index function
    names and END to every output: when the indices of a stream lie in
    [0, num), output j receives the items of index j, in stream order,
    followed by END.  On an item whose index is [num] or more the stage
    raises RuntimeError: that item and what follows it, END included, are
    written nowhere. *)
Theorem Branch_routes (num : Z) (idx : pyval -> Z) (self : Branch.state) :
  Branch.init num (fun d => ret (PInt (idx d))) = Ok self ->
  (forall items h,
      Forall (fun d => 0 <= idx d < num) items ->
      exists out,
        dispatch_routed Branch.handle self (map Item items ++ [END]) h
        = (out, Ok (self, h))
        /\ forall j,
             edge j out
             = map Item (List.filter (fun d => idx d =? j) items) ++ [END])
  /\ (forall before d after h,
        Forall (fun d => 0 <= idx d < num) before ->
        num <= idx d ->
        exists out,
          dispatch_routed Branch.handle self
            (map Item (before ++ d :: after) ++ [END]) h
          = (out, Raise RuntimeError)
          /\ forall j,
               edge j out
               = map Item (List.filter (fun d => idx d =? j) before)).
Proof.
  intros Hinit. unfold Branch.init in Hinit.
  destruct (num >? 1); [|discriminate]. injection Hinit as <-.
  split.
  - intros items h Hr.
    exists (map (fun d => (Some (PInt (idx d)), Item d)) items ++ [(None, END)]).
    split.
    + rewrite dispatch_routed_app, Branch_items.
      * reflexivity.
      * eapply Forall_impl; [exact Hr|]. cbn. intros; lia.
    + intros j. apply edge_routes.
  - intros before d after h Hr Hd.
    exists (map (fun d => (Some (PInt (idx d)), Item d)) before).
    split.
    + rewrite map_app, <- app_assoc, dispatch_routed_app, Branch_items.
      * cbn [map app dispatch_routed]. unfold Branch.handle at 1.
        cbn [Branch.fn Branch.num_out].
        unfold mbind, Py_bind, bind, ret, lift. cbn [Branch.index_ge].
        replace (idx d >=? num) with true
          by (symmetry; rewrite Z.geb_leb; apply Z.leb_le; lia).
        unfold raise. rewrite app_nil_r. reflexivity.
      * eapply Forall_impl; [exact Hr|]. cbn. intros; lia.
    + intros j.
      rewrite <- (app_nil_r (map _ before)), edge_routes.
      cbn. rewrite app_nil_r. reflexivity.
Qed.

(** Branch(num=2, by=x%2) on 1, 2, 3: output 1 receives 1, 3 and END. *)
Lemma Branch_routes_witness :
  exists out,
    dispatch_routed Branch.handle
      {| Branch.num_out := 2;
         Branch.fn := fun d => ret (PInt (match d with
                                          | PInt z => z mod 2
                                          | _ => 0
                                          end)) |}
      (map Item [PInt 1; PInt 2; PInt 3] ++ [END]) 2%nat
    = (out, Ok ({| Branch.num_out := 2;
                   Branch.fn := fun d => ret (PInt (match d with
                                                    | PInt z => z mod 2
                                                    | _ => 0
                                                    end)) |}, 2%nat))
    /\ forall j,
         edge j out
         = map Item
             (List.filter
                (fun d => match d with PInt z => z mod 2 | _ => 0 end =? j)
                [PInt 1; PInt 2; PInt 3]) ++ [END].
Proof.
  apply (proj1 (Branch_routes 2
                  (fun d => match d with PInt z => z mod 2 | _ => 0 end)
                  _ eq_refl)).
  repeat (apply List.Forall_cons;
          [split; [vm_compute; discriminate|vm_compute; reflexivity]|]).
  apply List.Forall_nil.
Defined.

(** ** Filter, Unique, Distinct *)

Lemma Filter_pure_run {S} (by_ : Filter.by_arg S) (p : pyval -> bool) self :
  (forall d h, Filter.keep by_ self d h = Ok (p d, self, h)) ->
  forall items h,
    Filter.handle_stream forward by_ self items h
    = (map Item (List.filter p items) ++ [END], Ok (self, h)).
Proof.
  intros Hkeep. induction items as [|d rest IH]; intros h; [reflexivity|].
  rewrite Filter_handle_stream_cons, Hkeep, IH. cbn [List.filter].
  destruct (p d); reflexivity.
Qed.

(** Filter keeps the items its test holds of, in order, and then writes
    END: for [by] an object, the items equal to it; for [by] a predicate
    that answers without raising and without touching the stage, the
    items it holds of. *)
Theorem Filter_keeps_matching :
  (forall (v : pyval) items h,
      Filter.handle_stream forward (Filter.Value v) tt items h
      = (map Item (List.filter (fun d => py_eq d v) items) ++ [END],
         Ok (tt, h)))
  /\ (forall (p : pyval -> bool) items h,
        Filter.handle_stream forward
          (Filter.Callable (fun (self : unit) d => ret (p d, self))) tt items h
        = (map Item (List.filter p items) ++ [END], Ok (tt, h))).
Proof.
  split.
  - intros v items h. apply Filter_pure_run. reflexivity.
  - intros p items h. apply (Filter_pure_run _ p). reflexivity.
Qed.

Lemma Unique_filter_run self d h :
  Unique.filter self d h
  = if py_hashable d then
      if existsb (fun c => py_eq c d) (Unique.cache self)
      then Ok (false, self, h)
      else Ok (true, {| Unique.cache := Unique.cache self ++ [d] |}, h)
    else Raise TypeError.
Proof.
  unfold Unique.filter. destruct (py_hashable d); [|reflexivity].
  destruct (existsb _ _); reflexivity.
Qed.

Lemma Unique_run items :
  Forall (fun d => py_hashable d = true) items ->
  forall seen h,
    Unique.handle_stream forward {| Unique.cache := seen |} items h
    = (map Item (first_occurrences seen items) ++ [END],
       Ok ({| Unique.cache := seen ++ first_occurrences seen items |}, h)).
Proof.
  unfold Unique.handle_stream.
  induction 1 as [|d rest Hd _ IH]; intros seen h.
  - cbn. rewrite app_nil_r. reflexivity.
  - rewrite Filter_handle_stream_cons. cbn [Filter.keep first_occurrences].
    rewrite Unique_filter_run, Hd. cbn [Unique.cache].
    destruct (existsb _ seen).
    + rewrite IH. reflexivity.
    + rewrite IH, <- app_assoc. reflexivity.
Qed.

Lemma Unique_run_raises before d after :
  Forall (fun d => py_hashable d = true) before ->
  py_hashable d = false ->
  forall seen h,
    Unique.handle_stream forward {| Unique.cache := seen |}
      (before ++ d :: after) h
    = (map Item (first_occurrences seen before), Raise TypeError).
Proof.
  unfold Unique.handle_stream. intros Hb Hd.
  induction Hb as [|x rest Hx _ IH]; intros seen h.
  - cbn [app]. rewrite Filter_handle_stream_cons. cbn [Filter.keep].
    rewrite Unique_filter_run, Hd. reflexivity.
  - cbn [app]. rewrite Filter_handle_stream_cons.
    cbn [Filter.keep first_occurrences].
    rewrite Unique_filter_run, Hx. cbn [Unique.cache].
    destruct (existsb _ seen); rewrite IH; reflexivity.
Qed.

Lemma first_occurrences_unseen items :
  forall seen,
    Forall (fun d => Forall (fun c => py_eq c d = false) seen)
      (first_occurrences seen items).
Proof.
  induction items as [|d rest IH]; intros seen; cbn; [constructor|].
  destruct (existsb (fun c => py_eq c d) seen) eqn:E; [apply IH|].
  constructor.
  - apply List.Forall_forall. intros c Hc.
    destruct (py_eq c d) eqn:Ecd; [|reflexivity].
    assert (existsb (fun c => py_eq c d) seen = true)
      by (apply existsb_exists; eauto).
    congruence.
  - eapply Forall_impl; [apply (IH (seen ++ [d]))|].
    cbn. intros x Hx. apply Forall_app in Hx. tauto.
Qed.

Lemma first_occurrences_distinct items :
  forall seen, distinct_values (first_occurrences seen items).
Proof.
  induction items as [|d rest IH]; intros seen; cbn; [exact I|].
  destruct (existsb (fun c => py_eq c d) seen); [apply IH|].
  cbn. split; [|apply IH].
  eapply Forall_impl; [apply (first_occurrences_unseen rest (seen ++ [d]))|].
  cbn. intros x Hx. apply Forall_app in Hx. destruct Hx as [_ Hx].
  inversion Hx; assumption.
Qed.

Lemma first_occurrences_sublist items :
  forall seen, sublist (first_occurrences seen items) items.
Proof.
  induction items as [|d rest IH]; intros seen; cbn; [constructor|].
  destruct (existsb (fun c => py_eq c d) seen).
  - apply sublist_cons. apply IH.
  - apply sublist_skip. apply IH.
Qed.

Lemma first_occurrences_cover items :
  forall seen,
    Forall (fun x => Exists (fun y => py_eq y x = true)
                       (seen ++ first_occurrences seen items)) items.
Proof.
  induction items as [|d rest IH]; intros seen; cbn; [constructor|].
  destruct (existsb (fun c => py_eq c d) seen) eqn:E.
  - constructor; [|apply IH].
    apply existsb_exists in E. destruct E as (c & Hc & Hcd).
    apply Exists_app. left. apply List.Exists_exists. eauto.
  - constructor.
    + apply Exists_app. right. constructor. apply py_eq_refl.
    + specialize (IH (seen ++ [d])). rewrite <- app_assoc in IH. exact IH.
Qed.

(** Unique on a stream of hashable items keeps the first occurrence of
    every value: what it writes before END is a subsequence of the stream
    in which no two items are equal and which holds, for every item of
    the stream, an item equal to it. *)
Theorem Unique_keeps_one_of_each (items : list pyval) (h : heap) :
  Forall (fun d => py_hashable d = true) items ->
  exists out self',
    Unique.handle_stream forward Unique.init items h
    = (map Item out ++ [END], Ok (self', h))
    /\ out = first_occurrences [] items
    /\ sublist out items
    /\ distinct_values out
    /\ Forall (fun x => Exists (fun y => py_eq y x = true) out) items.
Proof.
  intros Hh. exists (first_occurrences [] items). eexists.
  split; [apply (Unique_run items Hh [] h)|]. split; [reflexivity|].
  split; [apply first_occurrences_sublist|].
  split; [apply first_occurrences_distinct|].
  apply (first_occurrences_cover items []).
Qed.

(** Unique on 1, 1, 2, 1, 3, 2 writes 1, 2, 3. *)
Lemma Unique_keeps_one_of_each_witness :
  exists out self',
    Unique.handle_stream forward Unique.init
      [PInt 1; PInt 1; PInt 2; PInt 1; PInt 3; PInt 2] 2%nat
    = (map Item out ++ [END], Ok (self', 2%nat))
    /\ out = [PInt 1; PInt 2; PInt 3]
    /\ sublist out [PInt 1; PInt 1; PInt 2; PInt 1; PInt 3; PInt 2]
    /\ distinct_values out
    /\ Forall (fun x => Exists (fun y => py_eq y x = true) out)
         [PInt 1; PInt 1; PInt 2; PInt 1; PInt 3; PInt 2].
Proof.
  apply (Unique_keeps_one_of_each
           [PInt 1; PInt 1; PInt 2; PInt 1; PInt 3; PInt 2] 2%nat).
  repeat (apply List.Forall_cons; [reflexivity|]). apply List.Forall_nil.
Defined.

(** Unique needs hashable items: on the first item that is a list or a
    dict (or a tuple holding one) it raises TypeError; the first
    occurrences met before it have been written, and END is not. *)
Theorem Unique_unhashable_item (before : list pyval) (d : pyval)
  (after : list pyval) (h : heap) :
  Forall (fun d => py_hashable d = true) before ->
  py_hashable d = false ->
  Unique.handle_stream forward Unique.init (before ++ d :: after) h
  = (map Item (first_occurrences [] before), Raise TypeError).
Proof.
  intros Hb Hd. apply (Unique_run_raises before d after Hb Hd [] h).
Qed.

(** Unique on 1, 1, [2], 3. *)
Lemma Unique_unhashable_item_witness :
  Unique.handle_stream forward Unique.init
    [PInt 1; PInt 1; PList 5 [PInt 2]; PInt 3] 6%nat
  = ([Item (PInt 1)], Raise TypeError).
Proof.
  apply (Unique_unhashable_item [PInt 1; PInt 1] (PList 5 [PInt 2]) [PInt 3]
           6%nat).
  - repeat (apply List.Forall_cons; [reflexivity|]). apply List.Forall_nil.
  - reflexivity.
Defined.

Lemma Distinct_run items :
  forall (self : Distinct.state) (h : heap),
    (forall d, head items = Some d -> py_eq d (Distinct.prev self) = false) ->
    exists self',
      Distinct.handle_stream forward self items h
      = (map Item (drop_repeats None items) ++ [END], Ok (self', h)).
Proof.
  intros self h Hfirst. destruct items as [|d rest].
  - exists self. reflexivity.
  - unfold Distinct.handle_stream.
    rewrite Filter_handle_stream_cons. cbn [Filter.keep drop_repeats].
    rewrite Distinct_filter_run, (Hfirst d eq_refl).
    destruct (Distinct_after rest {| Distinct.prev := d |} d h (py_eq_refl d))
      as [self' E].
    exists self'. unfold Distinct.handle_stream in E. rewrite E. reflexivity.
Qed.

Lemma drop_repeats_congr p d items :
  py_eq p d = true ->
  drop_repeats (Some p) items = drop_repeats (Some d) items.
Proof.
  intros H. destruct items as [|x rest]; [reflexivity|].
  cbn. rewrite (py_eq_congr_r _ _ x H). reflexivity.
Qed.

Lemma no_repeats_congr p d l :
  py_eq p d = true -> no_repeats (Some d) l -> no_repeats (Some p) l.
Proof.
  intros H. destruct l as [|x rest]; [auto|].
  cbn. rewrite (py_eq_congr_r _ _ x H). auto.
Qed.

Lemma drop_repeats_no_repeats items :
  forall before, no_repeats before (drop_repeats before items).
Proof.
  induction items as [|d rest IH]; intros before; [exact I|].
  cbn [drop_repeats]. destruct before as [p|].
  - destruct (py_eq d p) eqn:E.
    + apply no_repeats_congr with d; [|apply IH].
      rewrite py_eq_sym. exact E.
    + cbn. split; [exact E|apply IH].
  - cbn. split; [exact I|apply IH].
Qed.

Lemma drop_repeats_idem items :
  forall before,
    drop_repeats before (drop_repeats before items)
    = drop_repeats before items.
Proof.
  induction items as [|d rest IH]; intros before; [reflexivity|].
  cbn [drop_repeats]. destruct before as [p|].
  - destruct (py_eq d p) eqn:E.
    + rewrite (drop_repeats_congr p d) by (rewrite py_eq_sym; exact E).
      apply IH.
    + cbn [drop_repeats]. rewrite E, IH. reflexivity.
  - cbn [drop_repeats]. rewrite IH. reflexivity.
Qed.

Lemma drop_repeats_head items :
  head (drop_repeats None items) = head items.
Proof. destruct items; reflexivity. Qed.

(** What Distinct writes has no item equal to the one written just before
    it, and a second Distinct stage fed with it forwards all of it: for
    stages whose remembered item differs from the first item of the
    stream, as it does for a stage just built. *)
Theorem Distinct_output_is_stable (items : list pyval)
  (self1 self2 : Distinct.state) (h1 h2 : heap) :
  (forall d, head items = Some d ->
             py_eq d (Distinct.prev self1) = false
             /\ py_eq d (Distinct.prev self2) = false) ->
  exists out self1' self2',
    Distinct.handle_stream forward self1 items h1
    = (map Item out ++ [END], Ok (self1', h1))
    /\ no_repeats None out
    /\ Distinct.handle_stream forward self2 out h2
       = (map Item out ++ [END], Ok (self2', h2)).
Proof.
  intros Hfirst.
  destruct (Distinct_run items self1 h1) as [self1' E1];
    [intros d Hd; apply (Hfirst d Hd)|].
  destruct (Distinct_run (drop_repeats None items) self2 h2) as [self2' E2].
  { intros d Hd. rewrite drop_repeats_head in Hd. apply (Hfirst d Hd). }
  exists (drop_repeats None items), self1', self2'.
  split; [exact E1|]. split; [apply drop_repeats_no_repeats|].
  rewrite E2, drop_repeats_idem. reflexivity.
Qed.

(** Two Distinct stages in a row on 1, 1, 2, 2, 1. *)
Lemma Distinct_output_is_stable_witness :
  exists out self1' self2',
    Distinct.handle_stream forward {| Distinct.prev := PObj 3 |}
      [PInt 1; PInt 1; PInt 2; PInt 2; PInt 1] 5%nat
    = (map Item out ++ [END], Ok (self1', 5%nat))
    /\ no_repeats None out
    /\ Distinct.handle_stream forward {| Distinct.prev := PObj 4 |} out 5%nat
       = (map Item out ++ [END], Ok (self2', 5%nat)).
Proof.
  apply (Distinct_output_is_stable [PInt 1; PInt 1; PInt 2; PInt 2; PInt 1]
           {| Distinct.prev := PObj 3 |} {| Distinct.prev := PObj 4 |}
           5%nat 5%nat).
  intros d Hd. injection Hd as <-. split; reflexivity.
Defined.

Lemma first_occurrences_drop_repeats items :
  forall seen before,
    (forall p, before = Some p ->
               existsb (fun c => py_eq c p) seen = true) ->
    first_occurrences seen (drop_repeats before items)
    = first_occurrences seen items.
Proof.
  assert (Hmem : forall seen p d,
             py_eq d p = true ->
             existsb (fun c => py_eq c p) seen = true ->
             existsb (fun c => py_eq c d) seen = true).
  { intros seen p d Hdp Hp. apply existsb_exists in Hp.
    destruct Hp as (c & Hc & Hcp). apply existsb_exists. exists c.
    split; [exact Hc|]. apply py_eq_trans with p; [exact Hcp|].
    rewrite py_eq_sym. exact Hdp. }
  assert (Hlast : forall (seen : list pyval) d,
             existsb (fun c => py_eq c d) (seen ++ [d]) = true).
  { intros seen d. rewrite existsb_app. cbn. rewrite py_eq_refl.
    apply orb_true_iff. right. reflexivity. }
  induction items as [|d rest IH]; intros seen before Hb; [reflexivity|].
  assert (Hkept : first_occurrences seen (d :: drop_repeats (Some d) rest)
                  = first_occurrences seen (d :: rest)).
  { cbn [first_occurrences].
    destruct (existsb (fun c => py_eq c d) seen) eqn:E.
    - apply IH. intros p Hp. injection Hp as <-. exact E.
    - f_equal. apply IH. intros p Hp. injection Hp as <-. apply Hlast. }
  cbn [drop_repeats]. destruct before as [p|]; [|exact Hkept].
  destruct (py_eq d p) eqn:E; [|exact Hkept].
  cbn [first_occurrences].
  rewrite (Hmem seen p d E (Hb p eq_refl)).
  apply IH. intros q Hq. injection Hq as <-.
  exact (Hmem seen p d E (Hb p eq_refl)).
Qed.

Lemma drop_repeats_Forall (P : pyval -> Prop) items :
  Forall P items -> forall before, Forall P (drop_repeats before items).
Proof.
  induction 1 as [|d rest Hd _ IH]; intros before; [constructor|].
  cbn [drop_repeats]. destruct before as [p|].
  - destruct (py_eq d p); [apply IH|constructor; [exact Hd|apply IH]].
  - constructor; [exact Hd|apply IH].
Qed.

(** Unique absorbs a Distinct placed before it: on a stream of hashable
    items, Unique fed with what Distinct writes gives what Unique gives on
    the stream itself. *)
Theorem Unique_after_Distinct (items : list pyval) (self : Distinct.state)
  (h1 h2 : heap) :
  Forall (fun d => py_hashable d = true) items ->
  (forall d, head items = Some d -> py_eq d (Distinct.prev self) = false) ->
  exists out self',
    Distinct.handle_stream forward self items h1
    = (map Item out ++ [END], Ok (self', h1))
    /\ Unique.handle_stream forward Unique.init out h2
       = Unique.handle_stream forward Unique.init items h2.
Proof.
  intros Hh Hfirst.
  destruct (Distinct_run items self h1 Hfirst) as [self' E].
  exists (drop_repeats None items), self'. split; [exact E|].
  unfold Unique.init.
  rewrite (Unique_run items Hh [] h2).
  rewrite (Unique_run _ (drop_repeats_Forall _ items Hh None) [] h2).
  rewrite first_occurrences_drop_repeats; [reflexivity|discriminate].
Qed.

(** Distinct then Unique on 1, 1, 2, 1. *)
Lemma Unique_after_Distinct_witness :
  exists out self',
    Distinct.handle_stream forward {| Distinct.prev := PObj 3 |}
      [PInt 1; PInt 1; PInt 2; PInt 1] 5%nat
    = (map Item out ++ [END], Ok (self', 5%nat))
    /\ Unique.handle_stream forward Unique.init out 5%nat
       = Unique.handle_stream forward Unique.init
           [PInt 1; PInt 1; PInt 2; PInt 1] 5%nat.
Proof.
  apply (Unique_after_Distinct [PInt 1; PInt 1; PInt 2; PInt 1]
           {| Distinct.prev := PObj 3 |} 5%nat 5%nat).
  - repeat (apply List.Forall_cons; [reflexivity|]). apply List.Forall_nil.
  - intros d Hd. injection Hd as <-. reflexivity.
Defined.

(** ** Group: what becomes of the items *)

Lemma Group_getitem_contents key t :
  flat_map snd (snd (Group.getitem key t)) = flat_map snd t.
Proof.
  rewrite Group_getitem_spec. cbn [snd].
  destruct (Group.lookup key t); [reflexivity|].
  rewrite flat_map_app. cbn. apply app_nil_r.
Qed.

Lemma Group_store_contents key b d t :
  Group.lookup key t = Some b ->
  flat_map snd (Group.store key (b ++ [d]) t) ≡ₚ d :: flat_map snd t.
Proof.
  induction t as [|[k vs] t IH]; cbn; [discriminate|].
  destruct (py_eq k key).
  - intros H. injection H as ->. cbn.
    rewrite <- app_assoc. cbn. symmetry. apply Permutation_middle.
  - intros H. cbn. rewrite (IH H). symmetry. apply Permutation_middle.
Qed.

Lemma Group_remove_contents key b t :
  Group.lookup key t = Some b ->
  flat_map snd t ≡ₚ b ++ flat_map snd (Group.remove key t).
Proof.
  induction t as [|[k vs] t IH]; cbn; [discriminate|].
  destruct (py_eq k key).
  - intros H. injection H as ->. reflexivity.
  - intros H. cbn. rewrite (IH H), !app_assoc.
    apply Permutation_app_tail, Permutation_app_comm.
Qed.

Lemma Group_lookup_getitem key t :
  Group.lookup key (snd (Group.getitem key t)) = Some (bucket_of key t).
Proof.
  rewrite Group_getitem_spec. unfold bucket_of. cbn [snd].
  destruct (Group.lookup key t) eqn:E; [exact E|].
  rewrite Group_lookup_app, E. cbn. rewrite py_eq_refl. reflexivity.
Qed.

Lemma Group_lookup_store key g t b :
  Group.lookup key t = Some b ->
  Group.lookup key (Group.store key g t) = Some g.
Proof.
  induction t as [|[k vs] t IH]; cbn; [discriminate|].
  destruct (py_eq k key) eqn:E; cbn; rewrite E; auto.
Qed.

Lemma emitted_values_emits (t : Group.table) :
  flat_map emitted_values (map (fun kv => Group.emit (fst kv) (snd kv)) t)
  = flat_map snd t.
Proof.
  induction t as [|[k vs] t IH]; [reflexivity|].
  cbn. rewrite IH. reflexivity.
Qed.

(** One activation neither loses nor invents an item. *)
Lemma Group_handle_conserves self m h self' puts r h' :
  Group.handle self m h = Ok (self', puts, r, h') ->
  match m with Item d => [d] | END => [] end
  ++ (if match m with END => Group.keep_rest self | Item _ => true end
      then flat_map snd (Group.groups self) else [])
  ≡ₚ flat_map emitted_values puts
     ++ (if match m with END => Group.keep_rest self | Item _ => true end
         then flat_map snd (Group.groups self') else []).
Proof.
  intros H. destruct m as [data|].
  - destruct (Group_handle_item_key _ _ _ _ _ _ _ H) as (key & Hkey & Hhash).
    rewrite (Group_handle_item _ _ _ _ _ Hkey Hhash) in H. cbv zeta in H.
    pose proof (Group_lookup_getitem key (Group.groups self)) as Hl.
    pose proof (Group_store_contents key _ data _ Hl) as Hs.
    rewrite Group_getitem_contents in Hs.
    destruct (Group.reached _ _); injection H as <- <- <-.
    + cbn [Group.groups Group.with_groups flat_map emitted_values Group.emit].
      rewrite app_nil_r.
      rewrite <- (Group_remove_contents key _ _
                    (Group_lookup_store key _ _ _ Hl)).
      cbn [app]. symmetry. exact Hs.
    + cbn [Group.groups Group.with_groups flat_map app]. symmetry. exact Hs.
  - unfold Group.handle in H.
    destruct (Group.keep_rest self); injection H as <- <- <- <-.
    + cbn [Group.groups Group.with_groups flat_map app].
      rewrite emitted_values_emits, app_nil_r. reflexivity.
    + reflexivity.
Qed.

Lemma Group_items_conserve items :
  forall self h out self' h',
    dispatch_all Group.handle self (map Item items) h
    = (out, Ok (self', h')) ->
    items ++ flat_map snd (Group.groups self)
    ≡ₚ flat_map emitted_values out ++ flat_map snd (Group.groups self').
Proof.
  induction items as [|d rest IH]; intros self h out self' h'.
  - cbn. intros H. injection H as <- <- _. reflexivity.
  - cbn [map]. rewrite dispatch_all_cons.
    destruct (Group.handle self (Item d) h)
      as [[[[self1 puts] r] h1]|e] eqn:Hd; [|discriminate].
    destruct (dispatch_all Group.handle self1 (map Item rest) h1)
      as [out1 r1] eqn:Hrest.
    intros H. injection H as <- ->.
    pose proof (Group_handle_conserves _ _ _ _ _ _ _ Hd) as Hstep.
    cbn [app] in Hstep.
    specialize (IH _ _ _ _ _ Hrest).
    rewrite flat_map_app, <- app_assoc, <- IH.
    cbn [app]. rewrite (Permutation_middle rest), Hstep.
    rewrite !app_assoc. apply Permutation_app_tail, Permutation_app_comm.
Qed.

Lemma Group_handle_keeps_fields self m h self' puts r h' :
  Group.handle self m h = Ok (self', puts, r, h') ->
  Group.keep_rest self' = Group.keep_rest self
  /\ Group.group_size self' = Group.group_size self.
Proof.
  intros H. destruct m as [data|].
  - destruct (Group_handle_item_key _ _ _ _ _ _ _ H) as (key & Hkey & Hhash).
    rewrite (Group_handle_item _ _ _ _ _ Hkey Hhash) in H. cbv zeta in H.
    destruct (Group.reached _ _); injection H as <- _ _; split; reflexivity.
  - unfold Group.handle in H.
    destruct (Group.keep_rest self) eqn:E; injection H as <- _ _ _;
      split; cbn; auto.
Qed.

(** Group loses no item and invents none: after the items of a stream,
    the items are, up to order, the values of the tuples written so far
    together with the contents of the buckets; with [keep] the activation
    on END flushes the buckets, so that over the whole stream the values
    written are the items of the stream, up to order. *)
Theorem Group_conserves_items (by_ : pyval -> Py pyval) (num : Group.size)
  (keep : bool) (self0 : Group.state) (items : list pyval) (h : heap) :
  Group.init by_ num keep = Ok self0 ->
  (forall out self h',
      dispatch_all Group.handle self0 (map Item items) h
      = (out, Ok (self, h')) ->
      items ≡ₚ flat_map emitted_values out
               ++ flat_map snd (Group.groups self))
  /\ (keep = true ->
      forall out self h',
        default_handle_stream Group.handle self0 items h
        = (out, Ok (self, h')) ->
        items ≡ₚ flat_map emitted_values out /\ Group.groups self = []).
Proof.
  intros Hinit. unfold Group.init in Hinit.
  destruct (Group.gt_one num); [|discriminate]. injection Hinit as <-.
  split.
  - intros out self h' H. apply Group_items_conserve in H.
    cbn [Group.groups flat_map] in H. rewrite app_nil_r in H. exact H.
  - intros -> out self h'. unfold default_handle_stream.
    rewrite dispatch_all_app.
    destruct (dispatch_all Group.handle _ (map Item items) h)
      as [out1 [[self1 h1]|e]] eqn:H1; [|discriminate].
    assert (Hkeep : Group.keep_rest self1 = true).
    { apply (dispatch_all_invariant Group.handle
               (fun s => Group.keep_rest s = true)) in H1;
        [exact H1| |reflexivity].
      intros s m h0 s' p r h0' Hs Hm.
      destruct (Group_handle_keeps_fields _ _ _ _ _ _ _ Hm) as [-> _].
      exact Hs. }
    apply Group_items_conserve in H1.
    cbn [Group.groups flat_map] in H1. rewrite app_nil_r in H1.
    cbn [dispatch_all]. unfold Group.handle. rewrite Hkeep.
    unfold ret. intros H. injection H as <- <- _.
    cbn [Group.groups Group.with_groups]. split; [|reflexivity].
    rewrite flat_map_app, app_nil_r, emitted_values_emits. exact H1.
Qed.

(** Group(by=x%2, num=2, keep=True) on 1, 2, 3, 4, 5. *)
Lemma Group_conserves_items_witness :
  [PInt 1; PInt 2; PInt 3; PInt 4; PInt 5]
  ≡ₚ [PInt 1; PInt 3; PInt 2; PInt 4; PInt 5].
Proof.
  pose proof (Group_conserves_items parity (Group.Num 2) true
                {| Group.key_fn := parity; Group.group_size := Group.Num 2;
                   Group.keep_rest := true; Group.groups := [] |}
                [PInt 1; PInt 2; PInt 3; PInt 4; PInt 5] 2%nat eq_refl)
    as [_ Hall].
  exact (proj1 (Hall eq_refl _ _ _ eq_refl)).
Defined.

Lemma Group_bucket_below a key t :
  Group_below a 0 -> Group_bounded a t ->
  Group_below a (length (bucket_of key t)).
Proof.
  intros H0 Hb. unfold bucket_of.
  induction Hb as [|[k vs] t Hx _ IH]; cbn; [exact H0|].
  destruct (py_eq k key); [exact Hx|exact IH].
Qed.

Lemma dispatch_all_outputs {S} (handle : activation S) (I : S -> Prop)
  (P : msg -> Prop) :
  (forall self m h self' puts r h',
      I self -> handle self m h = Ok (self', puts, r, h') ->
      I self' /\ Forall P puts) ->
  forall inputs self h,
    I self -> Forall P (fst (dispatch_all handle self inputs h)).
Proof.
  intros Hstep. induction inputs as [|m rest IH]; intros self h HI.
  - constructor.
  - rewrite dispatch_all_cons.
    destruct (handle self m h) as [[[[self1 puts] r] h1]|e] eqn:Hm;
      [|constructor].
    destruct (Hstep _ _ _ _ _ _ _ HI Hm) as [HI1 Hp].
    specialize (IH self1 h1 HI1).
    destruct (dispatch_all handle self1 rest h1) as [out1 r1].
    cbn [fst] in *. apply Forall_app. split; assumption.
Qed.

Lemma Group_items_full (by_ : pyval -> Py pyval)
  (num : Group.size) (keep : bool) (self0 : Group.state)
  (items : list pyval) (h : heap) :
  Group.init by_ num keep = Ok self0 ->
  Forall (fun m => exists key vs,
              m = Item (PTuple [key; PTuple vs])
              /\ num = Group.Num (Z.of_nat (length vs)))
    (fst (dispatch_all Group.handle self0 (map Item items) h)).
Proof.
  intros Hinit. pose proof (Group_init_inv _ _ _ _ Hinit) as Hinv.
  assert (Hsize : Group.group_size self0 = num).
  { unfold Group.init in Hinit. destruct (Group.gt_one num); [|discriminate].
    injection Hinit as <-. reflexivity. }
  assert (Hgen : forall inputs (self : Group.state) h0,
             Forall (fun m => m <> END) inputs ->
             Group_inv self /\ Group.group_size self = num ->
             Forall (fun m => exists key vs,
                         m = Item (PTuple [key; PTuple vs])
                         /\ num = Group.Num (Z.of_nat (length vs)))
               (fst (dispatch_all Group.handle self inputs h0))).
  { induction inputs as [|m rest IH]; intros self h0 Hne [HI Hs];
      [constructor|].
    inversion Hne as [|? ? Hm Hrest]; subst.
    rewrite dispatch_all_cons.
    destruct (Group.handle self m h0) as [[[[self1 puts] r] h1]|e] eqn:E;
      [|constructor].
    pose proof (Group_handle_inv _ _ _ _ _ _ _ HI E) as HI1.
    destruct (Group_handle_keeps_fields _ _ _ _ _ _ _ E) as [_ Hs1].
    specialize (IH self1 h1 Hrest (conj HI1 (eq_trans Hs1 Hs))).
    destruct (dispatch_all Group.handle self1 rest h1) as [out1 r1].
    cbn [fst] in *. apply Forall_app. split; [|exact IH].
    destruct m as [data|]; [|contradiction].
    destruct (Group_handle_item_key _ _ _ _ _ _ _ E) as (key & Hkey & Hhash).
    rewrite (Group_handle_item _ _ _ _ _ Hkey Hhash) in E. cbv zeta in E.
    destruct HI as (Hgt & _ & Hb).
    pose proof (Group_bucket_below _ key _ (Group_gt_one_below _ Hgt) Hb)
      as Hlen.
    destruct (Group.reached _ _) eqn:Hr; injection E as <- <- <-;
      [|constructor].
    constructor; [|constructor].
    exists key, (bucket_of key (Group.groups self) ++ [data]).
    split; [reflexivity|].
    destruct (Group.group_size self) as [n|]; cbn in Hr, Hlen;
      [|discriminate].
    rewrite <- Hs. f_equal.
    rewrite Z.geb_leb in Hr. apply Z.leb_le in Hr.
    rewrite length_app in *. cbn [length] in *. lia. }
  apply Hgen.
  - apply List.Forall_forall. intros m Hin. apply in_map_iff in Hin.
    destruct Hin as (d & <- & _). discriminate.
  - split; [exact Hinv|exact Hsize].
Qed.

(** Before END a Group stage built with [num] = n writes full groups
    only: every tuple written while items arrive holds exactly n values;
    built with the default [POS_INF] it writes nothing before END. *)
Theorem Group_writes_full_groups (by_ : pyval -> Py pyval)
  (num : Group.size) (keep : bool) (self0 : Group.state)
  (items : list pyval) (h : heap) :
  Group.init by_ num keep = Ok self0 ->
  Forall (fun m => exists key vs,
              m = Item (PTuple [key; PTuple vs])
              /\ num = Group.Num (Z.of_nat (length vs)))
    (fst (dispatch_all Group.handle self0 (map Item items) h))
  /\ (num = Group.POS_INF ->
      fst (dispatch_all Group.handle self0 (map Item items) h) = []).
Proof.
  intros Hinit. pose proof (Group_items_full _ _ _ _ items h Hinit) as Hall.
  split; [exact Hall|]. intros ->.
  destruct (fst (dispatch_all Group.handle self0 (map Item items) h))
    as [|m out]; [reflexivity|].
  inversion Hall as [|? ? (key & vs & _ & Hnum) _]. discriminate Hnum.
Qed.

(** Group(by=x%2, num=2) on 1, 2, 3, 4, 5 writes two pairs before END. *)
Lemma Group_writes_full_groups_witness :
  Forall (fun m => exists key vs,
              m = Item (PTuple [key; PTuple vs])
              /\ Group.Num 2 = Group.Num (Z.of_nat (length vs)))
    [Item (PTuple [PInt 1; PTuple [PInt 1; PInt 3]]);
     Item (PTuple [PInt 0; PTuple [PInt 2; PInt 4]])].
Proof.
  exact (proj1 (Group_writes_full_groups parity (Group.Num 2) true
           {| Group.key_fn := parity; Group.group_size := Group.Num 2;
              Group.keep_rest := true; Group.groups := [] |}
           [PInt 1; PInt 2; PInt 3; PInt 4; PInt 5] 2%nat eq_refl)).
Defined.

(** ** GetItem on a whole stream *)

Lemma GetItem_items key default items :
  forall h,
    exists outs h',
      dispatch_all GetItem.handle (GetItem.init key default)
        (map Item items) h
      = (map Item outs, Ok (GetItem.init key default, h'))
      /\ Forall2 (fun d o =>
                    py_getitem d key = Ok o
                    \/ ((exists e, py_getitem d key = Raise e)
                        /\ erase o = erase default))
           items outs.
Proof.
  induction items as [|d rest IH]; intros h.
  - exists [], h. split; [reflexivity|constructor].
  - cbn [map]. rewrite dispatch_all_cons. unfold GetItem.handle at 1.
    cbn [GetItem.key GetItem.default GetItem.init].
    destruct (py_getitem d key) as [v|e] eqn:E.
    + destruct (IH h) as (outs & h' & Hrun & Hall).
      exists (v :: outs), h'. unfold ret. rewrite Hrun.
      split; [reflexivity|]. constructor; [left; exact E|exact Hall].
    + rewrite (py_getitem_raises _ _ _ E).
      destruct (deepcopy_fresh default h) as (c & h1 & Ec & Hc & _).
      rewrite (bind_Ok _ _ _ _ _ Ec). unfold ret.
      destruct (IH h1) as (outs & h' & Hrun & Hall).
      exists (c :: outs), h'. rewrite Hrun.
      split; [reflexivity|].
      constructor; [right; split; [eauto|exact Hc]|exact Hall].
Qed.

(** GetItem never aborts on a stream of values: it writes exactly one item
    for every item it reads, in order, and then END; the item written is
    [item[key]] when the lookup succeeds and a value equal to the default
    (up to object identities) when it fails. *)
Theorem GetItem_one_for_one (key default : pyval) (items : list pyval)
  (h : heap) :
  exists outs h',
    default_handle_stream GetItem.handle (GetItem.init key default) items h
    = (map Item outs ++ [END], Ok (GetItem.init key default, h'))
    /\ Forall2 (fun d o =>
                  py_getitem d key = Ok o
                  \/ ((exists e, py_getitem d key = Raise e)
                      /\ erase o = erase default))
         items outs.
Proof.
  destruct (GetItem_items key default items h) as (outs & h' & Hrun & Hall).
  exists outs, h'. split; [|exact Hall].
  unfold default_handle_stream. rewrite dispatch_all_app, Hrun. reflexivity.
Qed.

(** The defaults GetItem writes for two items are separate copies: when
    two lookups fail, the second after the first, the two values written
    have no list, dict or object in common, so that changing one leaves
    the other as it is. *)
Theorem GetItem_defaults_are_separate (key default d1 d2 : pyval)
  (h1 h1' h2 h2' : heap) (c1 c2 : pyval) (s1 s2 : GetItem.state)
  (r1 r2 : retval) (e1 e2 : exn) :
  py_getitem d1 key = Raise e1 ->
  py_getitem d2 key = Raise e2 ->
  GetItem.handle (GetItem.init key default) (Item d1) h1
  = Ok (s1, [Item c1], r1, h1') ->
  (h1' <= h2)%nat ->
  GetItem.handle (GetItem.init key default) (Item d2) h2
  = Ok (s2, [Item c2], r2, h2') ->
  forall i, In i (ids c1) -> ~ In i (ids c2).
Proof.
  intros E1 E2 H1 Hle H2 i Hi1 Hi2.
  unfold GetItem.handle in H1, H2.
  cbn [GetItem.key GetItem.default GetItem.init] in H1, H2.
  rewrite E1, (py_getitem_raises _ _ _ E1) in H1.
  rewrite E2, (py_getitem_raises _ _ _ E2) in H2.
  destruct (deepcopy_fresh default h1) as (x1 & k1 & Ex1 & _ & _ & Hx1).
  destruct (deepcopy_fresh default h2) as (x2 & k2 & Ex2 & _ & _ & Hx2).
  rewrite (bind_Ok _ _ _ _ _ Ex1) in H1.
  rewrite (bind_Ok _ _ _ _ _ Ex2) in H2.
  unfold ret in H1, H2. injection H1 as _ -> _ ->. injection H2 as _ -> _ ->.
  rewrite List.Forall_forall in Hx1, Hx2.
  specialize (Hx1 i Hi1). specialize (Hx2 i Hi2). lia.
Qed.

(** Two failed lookups with the default [[object()]]. *)
Lemma GetItem_defaults_are_separate_witness :
  Forall (fun i => ~ In i (ids (PList 12 [PObj 13])))
    (ids (PList 10 [PObj 11])).
Proof.
  apply List.Forall_forall.
  exact (GetItem_defaults_are_separate (PInt 5) (PList 3 [PObj 2])
           (PList 4 [PInt 1]) PNone 10%nat 12%nat 12%nat 14%nat
           (PList 10 [PObj 11]) (PList 12 [PObj 13])
           (GetItem.init (PInt 5) (PList 3 [PObj 2]))
           (GetItem.init (PInt 5) (PList 3 [PObj 2]))
           RetNone RetNone IndexError TypeError
           eq_refl eq_refl eq_refl (le_n 12) eq_refl).
Defined.
